(** * The row-enrichment pipeline of the process-data tool

    A shallow embedding of [processFullDataset], [processWorker],
    [collectResults], [saveProgress], [saveCSV], [saveExcel] and
    [columnIndexToLetter] (package [tools]), and the properties of the
    pipeline specification that can be settled on it.

    Conventions.
    - Go [int], [int32] and [int64] values are integers in [Z]; the atomic
      counters wrap around as the hardware does ([add32], [add64]).
      [int] is taken to be 64 bits wide.
    - Go maps [map[string]string] are [gmap string string]; a nil map and an
      empty map answer every lookup in the same way.
    - A slice write [row[k] = v] panics when [k] is out of range; the
      embedding returns [None] there.
    - The goroutines of [processFullDataset] are the components of a
      labelled transition system: one [Action] is one channel operation or
      one [select] branch, and a run is a list of actions. Where Go's
      [select] may pick any ready branch, every such branch is an action
      that can happen; the ticker can fire at any time.
    - [processRow] calls an external service: its outcome is a parameter of
      the worker's step and ranges over all results and all errors.
    - The operating system's file operations are taken to succeed. What the
      workbook library itself refuses is modelled: a file name [SaveAs]
      does not accept and a cell outside the sheet; [saveProgress] drops
      these errors. The bytes of a CSV file are determined by its records
      and those of a workbook by its cells, so a file is modelled by these.
    - [printProgress] only prints and is left out. *)

From Stdlib Require Import ZArith Lia.
From stdpp Require Import gmap strings list fin_maps pretty.
From Equations Require Import Equations.

Open Scope Z_scope.

(** ** Machine integers *)

(** Two's-complement wrap-around of a [w]-bit signed integer. *)
Definition wrap (w : Z) (z : Z) : Z := (z + 2 ^ (w - 1)) mod 2 ^ w - 2 ^ (w - 1).

(** [atomic.AddInt32] and [atomic.AddInt64]; [x++] on an [int]. *)
Definition add32 (a b : Z) : Z := wrap 32 (a + b).
Definition add64 (a b : Z) : Z := wrap 64 (a + b).

(** ** Data model *)

Record ColumnSpec := mkColumnSpec { Name : string; DataType : string }.

Record ProcessingTask := mkTask {
  task_RowIndex : Z;
  task_RowData : gmap string string
}.

(** [Error] is [nil] ([None]) or an error with its [Error()] text. *)
Record ProcessingResult := mkResult {
  RowIndex : Z;
  RowData : gmap string string;
  Results : gmap string string;
  Error : option string;
  Tokens : Z
}.

(** [StartTime] and [EstimatedCost] are a wall-clock time and a float that
    the pipeline only prints; they are left out. *)
Record ProcessingStats := mkStats {
  TotalRows : Z;
  CompletedRows : Z;
  FailedRows : Z;
  TotalTokens : Z
}.

(** What [processRow] hands back: [(result, nil)] or [(nil, err)]. The call
    goes to an external service, so the pipeline is verified for every
    possible outcome. *)
Inductive Outcome :=
| RowOk (results : gmap string string) (tokens : Z)
| RowErr (err : string).

(** ** Spreadsheet column letters *)

(** [string('A' + index%26)]: the rune is always an upper-case ASCII letter
    here, whose UTF-8 encoding is the single byte. *)
Definition rune_to_string (r : Z) : string :=
  String (Ascii.ascii_of_N (Z.to_N r)) EmptyString.

(** The loop of [columnIndexToLetter]; Go's [/] and [%] truncate. *)
Equations? columnIndexToLetter_loop (index : Z) (result : string) : string
  by wf (Z.to_nat (index + 1)) lt :=
  columnIndexToLetter_loop index result with decide (0 <= index) => {
    | left _ := columnIndexToLetter_loop (Z.quot index 26 - 1)
                  (rune_to_string (65 + Z.rem index 26) +:+ result);
    | right _ := result }.
Proof.
  rewrite Z.quot_div_nonneg by lia.
  pose proof (Z.div_mod index 26 ltac:(lia)).
  pose proof (Z.mod_pos_bound index 26 ltac:(lia)). lia.
Qed.

Definition columnIndexToLetter (index : Z) : string :=
  columnIndexToLetter_loop index "".

(** The value of a column name read as a bijective base-26 numeral, digits
    [A] = 1 up to [Z] = 26, most significant first. *)
Definition letterDigit (c : Ascii.ascii) : Z := Z.of_N (Ascii.N_of_ascii c) - 64.

Fixpoint bijValue_from (acc : Z) (s : string) : Z :=
  match s with
  | EmptyString => acc
  | String c s' => bijValue_from (acc * 26 + letterDigit c) s'
  end.

Definition bijValue (s : string) : Z := bijValue_from 0 s.

Fixpoint allUpper (s : string) : Prop :=
  match s with
  | EmptyString => True
  | String c s' => 1 <= letterDigit c <= 26 /\ allUpper s'
  end.

(** ** Checkpoint writer *)

(** A file as the writers leave it: the records handed to [csv.Writer.Write]
    in order, or the cells set with [SetCellValue] on a fresh workbook. *)
Inductive File :=
| CSVFile (records : list (list string))
| ExcelFile (cells : gmap string string).

Definition getColumnNames (specs : list ColumnSpec) : list string :=
  Name <$> specs.

(** [strings.HasSuffix]. *)
Definition hasSuffix (s suffix : string) : bool :=
  let n := String.length s in
  let k := String.length suffix in
  if (k <=? n)%nat then String.eqb (String.substring (n - k) k s) suffix else false.

Definition saveCSV (filename : string) (headers : list string)
    (rows : list (list string)) (fs : gmap string File) : gmap string File :=
  <[filename := CSVFile (headers :: rows)]> fs.

(** The workbook library's limits: [SetCellValue] returns an error, which
    [saveExcel] drops, for a cell right of column [XFD] or below row
    1048576, and leaves the sheet as it was. *)
Definition MaxColumns : Z := 16384.
Definition MaxRows : Z := 1048576.

Definition cellAccepted (j rowNo : Z) : bool :=
  (j <? MaxColumns) && (rowNo <=? MaxRows).

(** One spreadsheet row: [SetCellValue(sheet, letter(j) + rowNo, value)].
    The map records the value handed over for each cell that is accepted. *)
Fixpoint setExcelRow (rowNo : Z) (j : Z) (row : list string)
    (f : gmap string string) : gmap string string :=
  match row with
  | [] => f
  | value :: rest =>
      setExcelRow rowNo (j + 1) rest
        (if cellAccepted j rowNo
         then <[columnIndexToLetter j +:+ pretty rowNo := value]> f
         else f)
  end.

Fixpoint setExcelRows (i : Z) (rows : list (list string))
    (f : gmap string string) : gmap string string :=
  match rows with
  | [] => f
  | row :: rest => setExcelRows (i + 1) rest (setExcelRow (i + 2) 0 row f)
  end.

(** [filepath.Ext]: the suffix that starts at the last dot of the last
    element of the path, empty when that element has no dot. The library
    scans from the end of the name and stops at a path separator; [scanExt]
    says what that scan finds. *)
Inductive ExtScan :=
| ExtFound (ext : string)
| ExtStop
| ExtNone.

Definition dot : Ascii.ascii := Ascii.ascii_of_nat 46.
Definition slash : Ascii.ascii := Ascii.ascii_of_nat 47.

Fixpoint scanExt (path : string) : ExtScan :=
  match path with
  | EmptyString => ExtNone
  | String c rest =>
      match scanExt rest with
      | ExtNone =>
          if Ascii.eqb c dot then ExtFound (String c rest)
          else if Ascii.eqb c slash then ExtStop else ExtNone
      | found => found
      end
  end.

Definition fileExt (path : string) : string :=
  match scanExt path with
  | ExtFound ext => ext
  | _ => EmptyString
  end.

(** [strings.ToLower] on the letters [A] to [Z]; other bytes are kept. No
    other character is mapped to a letter of a workbook extension, so this
    decides the test of [SaveAs] as the library does. *)
Definition lowerByte (c : Ascii.ascii) : Ascii.ascii :=
  let n := Ascii.nat_of_ascii c in
  if (65 <=? n)%nat && (n <=? 90)%nat then Ascii.ascii_of_nat (n + 32) else c.

Fixpoint toLower (s : string) : string :=
  match s with
  | EmptyString => EmptyString
  | String c rest => String (lowerByte c) (toLower rest)
  end.

(** What [File.SaveAs] checks before it writes: the name has at most 207
    bytes and its extension, in lower case, is that of a workbook. *)
Definition MaxFilePathLength : nat := 207.

Definition supportedWorkbook (filename : string) : bool :=
  existsb (String.eqb (toLower (fileExt filename)))
    [".xlam"; ".xlsm"; ".xlsx"; ".xltm"; ".xltx"]%string.

Definition saveAsAccepts (filename : string) : bool :=
  (String.length filename <=? MaxFilePathLength)%nat
  && supportedWorkbook filename.

(** [saveExcel]: [None] is the error return of [f.SaveAs], which leaves no
    file behind. *)
Definition saveExcel (filename : string) (headers : list string)
    (rows : list (list string)) (fs : gmap string File)
    : option (gmap string File) :=
  if saveAsAccepts filename
  then Some (<[filename :=
                ExcelFile (setExcelRows 0 rows (setExcelRow 1 0 headers ∅))]> fs)
  else None.

(** [saveProgress] has no return value: the error of the writer it calls is
    dropped, and the disk is then as it was. *)
Definition saveProgress (outputFile : string) (headers : list string)
    (enrichedRows : list (list string)) (specs : list ColumnSpec)
    (fs : gmap string File) : gmap string File :=
  let tempFile := outputFile +:+ ".tmp" in
  let fullHeaders := headers ++ getColumnNames specs in
  if hasSuffix outputFile ".csv" then saveCSV tempFile fullHeaders enrichedRows fs
  else default fs (saveExcel tempFile fullHeaders enrichedRows fs).

(** ** Task source: the row handed to a worker *)

(** The inner loop of the sender goroutine: [rowData[header] = row[j]], or
    the empty string when the row is shorter than the header. *)
Fixpoint buildRowData (headers : list string) (j : nat) (row : list string)
    (rowData : gmap string string) : gmap string string :=
  match headers with
  | [] => rowData
  | header :: rest =>
      buildRowData rest (S j) row
        (<[header := match row !! j with Some v => v | None => "" end]> rowData)
  end.

Definition makeTask (headers : list string) (i : nat) (row : list string)
    : ProcessingTask :=
  {| task_RowIndex := Z.of_nat i; task_RowData := buildRowData headers 0 row ∅ |}.

(** ** Worker: from a task and the outcome of [processRow] to a result *)

(** [for _, spec := range columnSpecs { Results[spec.Name] = "ERROR: " + err }] *)
Definition errorResults (specs : list ColumnSpec) (err : string)
    : gmap string string :=
  foldl (fun m spec => <[Name spec := "ERROR: " +:+ err]> m) ∅ specs.

Definition workerResult (specs : list ColumnSpec) (task : ProcessingTask)
    (o : Outcome) : ProcessingResult :=
  match o with
  | RowErr err =>
      {| RowIndex := task_RowIndex task; RowData := task_RowData task;
         Results := errorResults specs err; Error := Some err; Tokens := 0 |}
  | RowOk results tokens =>
      {| RowIndex := task_RowIndex task; RowData := task_RowData task;
         Results := results; Error := None; Tokens := tokens |}
  end.

(** ** Result sink *)

(** The output table at start: every row copied into a fresh slice of
    length [len(row) + len(columnSpecs)]. *)
Definition makeEnrichedRows (rows : list (list string))
    (specs : list ColumnSpec) : list (list string) :=
  (fun row => row ++ replicate (length specs) ""%string) <$> rows.

(** [row[k] = v] *)
Definition setCell (row : list string) (k : nat) (v : string)
    : option (list string) :=
  if decide (k < length row)%nat then Some (<[k := v]> row) else None.

(** The loop over [columnSpecs] in [collectResults], from spec number [i]. *)
Fixpoint writeTargets (results : gmap string string) (startIdx i : nat)
    (specs : list ColumnSpec) (row : list string) : option (list string) :=
  match specs with
  | [] => Some row
  | spec :: rest =>
      let cell := match results !! Name spec with
                  | Some val => val
                  | None => ""%string
                  end in
      row' ← setCell row (startIdx + i) cell;
      writeTargets results startIdx (S i) rest row'
  end.

(** "Update enriched rows": [row] shares its cells with
    [enrichedRows[result.RowIndex]], so the writes land in the table. *)
Definition applyResult (headers : list string) (specs : list ColumnSpec)
    (result : ProcessingResult) (enrichedRows : list (list string))
    : option (list (list string)) :=
  if decide (0 <= RowIndex result < Z.of_nat (length enrichedRows)) then
    row ← enrichedRows !! Z.to_nat (RowIndex result);
    row' ← writeTargets (Results result) (length headers) 0 specs row;
    Some (<[Z.to_nat (RowIndex result) := row']> enrichedRows)
  else None.

(** "Update stats" *)
Definition updateStats (result : ProcessingResult) (stats : ProcessingStats)
    : ProcessingStats :=
  match Error result with
  | None =>
      {| TotalRows := TotalRows stats;
         CompletedRows := add32 (CompletedRows stats) 1;
         FailedRows := FailedRows stats;
         TotalTokens := add64 (TotalTokens stats) (Tokens result) |}
  | Some _ =>
      {| TotalRows := TotalRows stats;
         CompletedRows := CompletedRows stats;
         FailedRows := add32 (FailedRows stats) 1;
         TotalTokens := TotalTokens stats |}
  end.

(** What the collector goroutine owns. [disk] is the file system it writes
    checkpoints to; [saves] counts the calls of [saveProgress]. *)
Record Sink := mkSink {
  enrichedRows : list (list string);
  stats : ProcessingStats;
  processedCount : Z;
  disk : gmap string File;
  saves : nat
}.

(** The parameters of [processFullDataset]. *)
Record Config := mkConfig {
  headers : list string;
  rows : list (list string);
  columnSpecs : list ColumnSpec;
  workerCount : Z;
  batchSize : Z;
  outputFile : string
}.

Definition checkpoint (cfg : Config) (s : Sink) : Sink :=
  {| enrichedRows := enrichedRows s; stats := stats s;
     processedCount := processedCount s;
     disk := saveProgress (outputFile cfg) (headers cfg) (enrichedRows s)
               (columnSpecs cfg) (disk s);
     saves := S (saves s) |}.

(** The branches of the [select] in [collectResults]. *)
Inductive SinkEvent :=
| EvResult (result : ProcessingResult)   (* result, ok := <-resultChan, ok *)
| EvClosed                               (* result, ok := <-resultChan, !ok *)
| EvTick                                 (* <-saveTimer.C *)
| EvCancel.                              (* <-ctx.Done() *)

(** Where a branch leaves the collector: back at the [select], at
    [doneChan <- true], or dead with a run-time panic. *)
Inductive SinkNext :=
| SinkLoop (s : Sink)
| SinkSignal (s : Sink)
| SinkPanic.

Definition collectResults_select (cfg : Config) (ev : SinkEvent) (s : Sink)
    : SinkNext :=
  match ev with
  | EvResult result =>
      match applyResult (headers cfg) (columnSpecs cfg) result (enrichedRows s) with
      | None => SinkPanic
      | Some table =>
          let s' := {| enrichedRows := table;
                       stats := updateStats result (stats s);
                       processedCount := add64 (processedCount s) 1;
                       disk := disk s; saves := saves s |} in
          if decide (batchSize cfg = 0) then SinkPanic
          else if decide (Z.rem (processedCount s') (batchSize cfg) = 0)
               then SinkLoop (checkpoint cfg s')
               else SinkLoop s'
      end
  | EvClosed => SinkSignal s
  | EvTick => SinkLoop (checkpoint cfg s)
  | EvCancel => SinkSignal (checkpoint cfg s)
  end.

(** ** The goroutines of [processFullDataset] *)

(** The sender goroutine: at the [select] of row [i] (or, past the last row,
    at [close(taskChan)]), or finished. *)
Inductive SourcePc :=
| SrcLoop (i : nat)
| SrcClosed.

(** A worker: at [range taskChan], at its [select] with a task in hand, at
    [resultChan <- processingResult], or returned. *)
Inductive WorkerPc :=
| WRange
| WSelect (task : ProcessingTask)
| WSendResult (result : ProcessingResult)
| WExited.

(** The collector: in its loop, at [doneChan <- true], or returned. *)
Inductive CollectorPc := CLoop | CSignal | CReturned.

(** [processFullDataset] itself: at [wg.Wait()], at [<-doneChan], returned. *)
Inductive MainPc := MWait | MDone | MReturned.

(** The shared state. [cancelled] is [ctx.Done()] being closed; the channels
    are their buffers, oldest element first. The last four fields are
    history variables: the row indices sent on [taskChan] and the results
    applied by the sink (latest first), whether the sender has taken its
    [<-ctx.Done()] branch, and the row indices it sent after that. *)
Record State := mkState {
  cancelled : bool;
  source : SourcePc;
  taskChan : list ProcessingTask;
  taskChanClosed : bool;
  workers : list WorkerPc;
  resultChan : list ProcessingResult;
  resultChanClosed : bool;
  collector : CollectorPc;
  sink : Sink;
  mainPc : MainPc;
  panicked : bool;
  sent : list Z;
  applied : list ProcessingResult;
  observed : bool;
  sentAfter : list Z
}.

Definition set_cancelled (s : State) : State :=
  mkState true (source s) (taskChan s) (taskChanClosed s) (workers s)
    (resultChan s) (resultChanClosed s) (collector s) (sink s) (mainPc s)
    (panicked s) (sent s) (applied s) (observed s) (sentAfter s).

Definition set_panicked (s : State) : State :=
  mkState (cancelled s) (source s) (taskChan s) (taskChanClosed s) (workers s)
    (resultChan s) (resultChanClosed s) (collector s) (sink s) (mainPc s)
    true (sent s) (applied s) (observed s) (sentAfter s).

(** The sender puts [task] on the channel and moves on to row [i]. *)
Definition source_sends (i : nat) (task : ProcessingTask) (s : State) : State :=
  mkState (cancelled s) (SrcLoop i) (taskChan s ++ [task]) (taskChanClosed s)
    (workers s) (resultChan s) (resultChanClosed s) (collector s) (sink s)
    (mainPc s) (panicked s) (task_RowIndex task :: sent s) (applied s)
    (observed s)
    (if observed s then task_RowIndex task :: sentAfter s else sentAfter s).

(** The sender takes [case <-ctx.Done(): break] and moves on to row [i]. *)
Definition source_breaks (i : nat) (s : State) : State :=
  mkState (cancelled s) (SrcLoop i) (taskChan s) (taskChanClosed s)
    (workers s) (resultChan s) (resultChanClosed s) (collector s) (sink s)
    (mainPc s) (panicked s) (sent s) (applied s) true (sentAfter s).

Definition source_closes (s : State) : State :=
  mkState (cancelled s) SrcClosed (taskChan s) true
    (workers s) (resultChan s) (resultChanClosed s) (collector s) (sink s)
    (mainPc s) (panicked s) (sent s) (applied s) (observed s) (sentAfter s).

Definition set_worker (w : nat) (pc : WorkerPc) (s : State) : State :=
  mkState (cancelled s) (source s) (taskChan s) (taskChanClosed s)
    (<[w := pc]> (workers s)) (resultChan s) (resultChanClosed s)
    (collector s) (sink s) (mainPc s) (panicked s) (sent s) (applied s)
    (observed s) (sentAfter s).

Definition set_taskChan (buf : list ProcessingTask) (s : State) : State :=
  mkState (cancelled s) (source s) buf (taskChanClosed s)
    (workers s) (resultChan s) (resultChanClosed s)
    (collector s) (sink s) (mainPc s) (panicked s) (sent s) (applied s)
    (observed s) (sentAfter s).

Definition set_resultChan (buf : list ProcessingResult) (s : State) : State :=
  mkState (cancelled s) (source s) (taskChan s) (taskChanClosed s)
    (workers s) buf (resultChanClosed s)
    (collector s) (sink s) (mainPc s) (panicked s) (sent s) (applied s)
    (observed s) (sentAfter s).

Definition main_closes (s : State) : State :=
  mkState (cancelled s) (source s) (taskChan s) (taskChanClosed s)
    (workers s) (resultChan s) true
    (collector s) (sink s) MDone (panicked s) (sent s) (applied s)
    (observed s) (sentAfter s).

Definition set_collector (pc : CollectorPc) (k : Sink) (s : State) : State :=
  mkState (cancelled s) (source s) (taskChan s) (taskChanClosed s)
    (workers s) (resultChan s) (resultChanClosed s)
    pc k (mainPc s) (panicked s) (sent s) (applied s)
    (observed s) (sentAfter s).

Definition set_applied (result : ProcessingResult) (s : State) : State :=
  mkState (cancelled s) (source s) (taskChan s) (taskChanClosed s)
    (workers s) (resultChan s) (resultChanClosed s)
    (collector s) (sink s) (mainPc s) (panicked s) (sent s)
    (result :: applied s) (observed s) (sentAfter s).

Definition handshake (s : State) : State :=
  mkState (cancelled s) (source s) (taskChan s) (taskChanClosed s)
    (workers s) (resultChan s) (resultChanClosed s)
    CReturned (sink s) MReturned (panicked s) (sent s) (applied s)
    (observed s) (sentAfter s).

(** One step of one goroutine. *)
Inductive Action :=
| ACancel                            (* the signal handler calls cancel() *)
| ASrcSend                           (* select: taskChan <- task *)
| ASrcDone                           (* select: <-ctx.Done(), break *)
| ASrcClose                          (* close(taskChan) *)
| AWorkRecv (w : nat)                (* range taskChan yields a task *)
| AWorkExit (w : nat)                (* range taskChan ends; wg.Done() *)
| AWorkCancel (w : nat)              (* select: <-ctx.Done(), return *)
| AWorkCall (w : nat) (o : Outcome)  (* select: default; processRow gives o *)
| AWorkSend (w : nat)                (* resultChan <- processingResult *)
| AMainClose                         (* wg.Wait() returns; close(resultChan) *)
| ASinkRecv                          (* collector: a result arrives *)
| ASinkClosed                        (* collector: resultChan is closed *)
| ASinkTick                          (* collector: <-saveTimer.C *)
| ASinkCancel                        (* collector: <-ctx.Done() *)
| AHandshake.                        (* doneChan <- true meets <-doneChan *)

(** Both channels are made with capacity [workerCount*2]. *)
Definition chanCap (cfg : Config) : nat := Z.to_nat (workerCount cfg * 2).

Definition isExited (pc : WorkerPc) : bool :=
  match pc with WExited => true | _ => false end.

(** What receiving does to the channel: a result leaves the buffer and is
    recorded as applied. *)
Definition received (ev : SinkEvent) (s : State) : State :=
  match ev with
  | EvResult result => set_applied result (set_resultChan (tail (resultChan s)) s)
  | _ => s
  end.

(** The collector takes the branch [ev] of its [select]. A panic freezes the
    state as it was when the branch was entered. *)
Definition collector_takes (cfg : Config) (ev : SinkEvent) (s : State) : State :=
  match collectResults_select cfg ev (sink s) with
  | SinkLoop k => set_collector CLoop k (received ev s)
  | SinkSignal k => set_collector CSignal k (received ev s)
  | SinkPanic => set_panicked s
  end.

(** [do_action cfg a s] is the state after action [a], or [None] when [a]
    cannot happen in [s] (its goroutine is elsewhere, or would block). A
    panic in any goroutine ends the process: nothing moves afterwards. *)
Definition do_action (cfg : Config) (a : Action) (s : State) : option State :=
  if panicked s then None else
  match a with
  | ACancel => Some (set_cancelled s)
  | ASrcSend =>
      match source s with
      | SrcLoop i =>
          match rows cfg !! i with
          | Some row =>
              if decide (length (taskChan s) < chanCap cfg)%nat
              then Some (source_sends (S i) (makeTask (headers cfg) i row) s)
              else None
          | None => None
          end
      | SrcClosed => None
      end
  | ASrcDone =>
      match source s with
      | SrcLoop i =>
          match rows cfg !! i with
          | Some _ => if cancelled s then Some (source_breaks (S i) s) else None
          | None => None
          end
      | SrcClosed => None
      end
  | ASrcClose =>
      match source s with
      | SrcLoop i =>
          match rows cfg !! i with
          | Some _ => None
          | None => Some (source_closes s)
          end
      | SrcClosed => None
      end
  | AWorkRecv w =>
      match workers s !! w, taskChan s with
      | Some WRange, task :: rest =>
          Some (set_worker w (WSelect task) (set_taskChan rest s))
      | _, _ => None
      end
  | AWorkExit w =>
      match workers s !! w, taskChan s with
      | Some WRange, [] =>
          if taskChanClosed s then Some (set_worker w WExited s) else None
      | _, _ => None
      end
  | AWorkCancel w =>
      match workers s !! w with
      | Some (WSelect _) =>
          if cancelled s then Some (set_worker w WExited s) else None
      | _ => None
      end
  | AWorkCall w o =>
      match workers s !! w with
      | Some (WSelect task) =>
          if cancelled s then None
          else Some (set_worker w
                       (WSendResult (workerResult (columnSpecs cfg) task o)) s)
      | _ => None
      end
  | AWorkSend w =>
      match workers s !! w with
      | Some (WSendResult result) =>
          if resultChanClosed s then Some (set_panicked s)
          else if decide (length (resultChan s) < chanCap cfg)%nat
          then Some (set_worker w WRange
                       (set_resultChan (resultChan s ++ [result]) s))
          else None
      | _ => None
      end
  | AMainClose =>
      match mainPc s with
      | MWait =>
          if forallb isExited (workers s) then Some (main_closes s) else None
      | _ => None
      end
  | ASinkRecv =>
      match collector s, resultChan s with
      | CLoop, result :: _ => Some (collector_takes cfg (EvResult result) s)
      | _, _ => None
      end
  | ASinkClosed =>
      match collector s, resultChan s with
      | CLoop, [] =>
          if resultChanClosed s then Some (collector_takes cfg EvClosed s)
          else None
      | _, _ => None
      end
  | ASinkTick =>
      match collector s with
      | CLoop => Some (collector_takes cfg EvTick s)
      | _ => None
      end
  | ASinkCancel =>
      match collector s with
      | CLoop =>
          if cancelled s then Some (collector_takes cfg EvCancel s) else None
      | _ => None
      end
  | AHandshake =>
      match collector s, mainPc s with
      | CSignal, MDone => Some (handshake s)
      | _, _ => None
      end
  end.

(** The state in which [processFullDataset] starts its goroutines. *)
Definition start_state (cfg : Config) : State :=
  {| cancelled := false;
     source := SrcLoop 0;
     taskChan := []; taskChanClosed := false;
     workers := replicate (Z.to_nat (workerCount cfg)) WRange;
     resultChan := []; resultChanClosed := false;
     collector := CLoop;
     sink := {| enrichedRows := makeEnrichedRows (rows cfg) (columnSpecs cfg);
                stats := {| TotalRows := Z.of_nat (length (rows cfg));
                            CompletedRows := 0; FailedRows := 0;
                            TotalTokens := 0 |};
                processedCount := 0; disk := ∅; saves := 0 |};
     mainPc := MWait;
     panicked := false;
     sent := []; applied := []; observed := false; sentAfter := [] |}.

(** [make(chan T, n)] panics for a negative [n]: no pipeline then. *)
Definition start (cfg : Config) : option State :=
  if decide (workerCount cfg < 0) then None else Some (start_state cfg).

Fixpoint run_from (cfg : Config) (trace : list Action) (s : State)
    : option State :=
  match trace with
  | [] => Some s
  | a :: rest => s' ← do_action cfg a s; run_from cfg rest s'
  end.

(** The state a run of [processFullDataset] reaches along [trace]. *)
Definition run (cfg : Config) (trace : list Action) : option State :=
  s ← start cfg; run_from cfg trace s.

(** ** Bookkeeping used by the invariants *)

(** The row index a worker has in hand, if any. *)
Definition workerHolds (pc : WorkerPc) : list Z :=
  match pc with
  | WSelect task => [task_RowIndex task]
  | WSendResult result => [RowIndex result]
  | _ => []
  end.

(** Every row index that is somewhere in the pipeline: buffered as a task,
    held by a worker, buffered as a result, or applied. *)
Definition inflight (s : State) : list Z :=
  (task_RowIndex <$> taskChan s) ++ (workers s ≫= workerHolds)
  ++ (RowIndex <$> resultChan s) ++ (RowIndex <$> applied s).

(** How many rows the sender has gone past. *)
Definition rowsOffered (cfg : Config) (s : State) : nat :=
  match source s with
  | SrcLoop i => i
  | SrcClosed => length (rows cfg)
  end.

Definition rowIndices (n : nat) : list Z := Z.of_nat <$> seq 0 n.

Definition succeeded (r : ProcessingResult) : bool :=
  match Error r with None => true | Some _ => false end.

Definition countOk (l : list ProcessingResult) : Z :=
  Z.of_nat (length (filter (fun r => succeeded r = true) l)).

Definition countFailed (l : list ProcessingResult) : Z :=
  Z.of_nat (length (filter (fun r => succeeded r = false) l)).

(** The tokens reported by the successful results of a list. *)
Fixpoint tokensOk (l : list ProcessingResult) : Z :=
  match l with
  | [] => 0
  | r :: rest => (if succeeded r then Tokens r else 0) + tokensOk rest
  end.

(** ** Sample inputs

    Small tables and schedules on which the definitions are evaluated. *)

(** Two rows, one header, one target column, one worker, CSV output. *)
Definition sample_cfg : Config :=
  {| headers := ["city"]; rows := [["Oslo"]; ["Lima"]];
     columnSpecs := [mkColumnSpec "country" "string"];
     workerCount := 1; batchSize := 100; outputFile := "out.csv" |}.

(** A run without cancellation: row 0 fails, row 1 succeeds. *)
Definition sample_run : list Action :=
  [ASrcSend; AWorkRecv 0; AWorkCall 0 (RowErr "timeout"); AWorkSend 0;
   ASrcSend; ASinkRecv; AWorkRecv 0;
   AWorkCall 0 (RowOk (<["country" := "Peru"]> ∅) 7); ASrcClose;
   AWorkSend 0; AWorkExit 0; ASinkRecv; AMainClose; ASinkClosed; AHandshake].

(** A cancelled run: both rows are sent, the worker pulls row 0, then sees
    the cancellation and returns; the collector sees it too. *)
Definition sample_cancelled_run : list Action :=
  [ASrcSend; ASrcSend; ASrcClose; AWorkRecv 0; ACancel; AWorkCancel 0;
   AMainClose; ASinkCancel; AHandshake].

(** The sender takes its [<-ctx.Done()] branch at row 0 and then sends row 1. *)
Definition sample_late_send : list Action := [ACancel; ASrcDone; ASrcSend].

Definition state_after (cfg : Config) (trace : list Action) : State :=
  default (start_state cfg) (run cfg trace).

(** The state in which the worker has pulled the task of row 0, and that
    task. *)
Definition sample_holding : State :=
  state_after sample_cfg [ASrcSend; AWorkRecv 0].

Definition sample_task : ProcessingTask :=
  makeTask (headers sample_cfg) 0 ["Oslo"].

(** A failed result that reports five tokens. *)
Definition sample_failed : ProcessingResult :=
  {| RowIndex := 0; RowData := ∅;
     Results := errorResults (columnSpecs sample_cfg) "timeout";
     Error := Some "timeout"; Tokens := 5 |}.

(** A spreadsheet row with two cells under three headers, two target columns. *)
Definition sample_ragged_headers : list string := ["a"; "b"; "c"].
Definition sample_ragged_row : list string := ["x"; "y"].
Definition sample_ragged_specs : list ColumnSpec :=
  [mkColumnSpec "t1" "string"; mkColumnSpec "t2" "string"].

(** ** Invariants of the pipeline *)

(** Flow of row indices: what is in the pipeline was sent, what was sent is
    a row the sender has gone past, and nothing occurs twice (these are
    containments of multisets, and [rowIndices n] has no duplicates). While
    cancellation has not fired, nothing that was sent has left the pipeline
    and no row was skipped. *)
Definition flow_invariant (cfg : Config) (s : State) : Prop :=
  (rowsOffered cfg s <= length (rows cfg))%nat
  /\ inflight s ⊆+ sent s
  /\ sent s ⊆+ rowIndices (rowsOffered cfg s)
  /\ (cancelled s = false ->
      inflight s ≡ₚ sent s /\ sent s ≡ₚ rowIndices (rowsOffered cfg s)).

(** The counters of the statistics are the (wrapped) numbers of successful
    and failed results applied so far, and the total cost is the (wrapped)
    sum of the tokens of the successful ones. *)
Definition stats_invariant (cfg : Config) (s : State) : Prop :=
  TotalRows (stats (sink s)) = Z.of_nat (length (rows cfg))
  /\ CompletedRows (stats (sink s)) = wrap 32 (countOk (applied s))
  /\ FailedRows (stats (sink s)) = wrap 32 (countFailed (applied s))
  /\ TotalTokens (stats (sink s)) = wrap 64 (tokensOk (applied s)).

(** Shape of the output table: one row per input row, each as long as at
    the start, and equal to what it was at the start outside the target
    columns. *)
Definition table_invariant (cfg : Config) (s : State) : Prop :=
  length (enrichedRows (sink s)) = length (rows cfg)
  /\ forall (i : nat) (row : list string), rows cfg !! i = Some row ->
     exists out, enrichedRows (sink s) !! i = Some out
       /\ length out = (length row + length (columnSpecs cfg))%nat
       /\ forall j : nat,
            (j < length (headers cfg)
             \/ length (headers cfg) + length (columnSpecs cfg) <= j)%nat ->
            out !! j = (row ++ replicate (length (columnSpecs cfg)) ""%string) !! j.

(** Where the goroutines can be relative to each other. *)
Definition control_invariant (cfg : Config) (s : State) : Prop :=
  length (workers s) = Z.to_nat (workerCount cfg)
  /\ (length (taskChan s) <= chanCap cfg)%nat
  /\ (taskChanClosed s = true -> source s = SrcClosed)
  /\ (cancelled s = false -> WExited ∈ workers s ->
      taskChan s = [] /\ taskChanClosed s = true)
  /\ (resultChanClosed s = true -> forallb isExited (workers s) = true)
  /\ (mainPc s = MWait <-> resultChanClosed s = false)
  /\ (cancelled s = false -> collector s <> CLoop ->
      resultChan s = [] /\ resultChanClosed s = true)
  /\ (mainPc s = MReturned -> collector s = CReturned).

(** What one step can do to the flow of row indices: nothing, send the next
    row, skip the next row (only when cancelled), close the task channel
    after the last row, or drop an index (only when cancelled). *)
Inductive flow_effect (cfg : Config) (s s' : State) : Prop :=
| FlowSame :
    inflight s' ≡ₚ inflight s -> sent s' = sent s ->
    rowsOffered cfg s' = rowsOffered cfg s ->
    (cancelled s' = false -> cancelled s = false) ->
    flow_effect cfg s s'
| FlowSend (i : nat) :
    rowsOffered cfg s = i -> (i < length (rows cfg))%nat ->
    rowsOffered cfg s' = S i ->
    inflight s' ≡ₚ Z.of_nat i :: inflight s ->
    sent s' = Z.of_nat i :: sent s ->
    cancelled s' = cancelled s ->
    flow_effect cfg s s'
| FlowSkip :
    (rowsOffered cfg s < length (rows cfg))%nat ->
    rowsOffered cfg s' = S (rowsOffered cfg s) ->
    inflight s' ≡ₚ inflight s -> sent s' = sent s ->
    cancelled s' = true ->
    flow_effect cfg s s'
| FlowClose :
    (length (rows cfg) <= rowsOffered cfg s)%nat ->
    rowsOffered cfg s' = length (rows cfg) ->
    inflight s' ≡ₚ inflight s -> sent s' = sent s ->
    cancelled s' = cancelled s ->
    flow_effect cfg s s'
| FlowDrop (x : Z) :
    inflight s ≡ₚ x :: inflight s' -> sent s' = sent s ->
    rowsOffered cfg s' = rowsOffered cfg s ->
    cancelled s' = true ->
    flow_effect cfg s s'.

(** What one step can do to the sink's table and counters: nothing, or
    apply the result at the head of the result channel. *)
Inductive sink_effect (cfg : Config) (s s' : State) : Prop :=
| SinkSame :
    enrichedRows (sink s') = enrichedRows (sink s) ->
    stats (sink s') = stats (sink s) ->
    applied s' = applied s ->
    sink_effect cfg s s'
| SinkApplies (result : ProcessingResult) :
    resultChan s = result :: resultChan s' ->
    applied s' = result :: applied s ->
    applyResult (headers cfg) (columnSpecs cfg) result (enrichedRows (sink s))
    = Some (enrichedRows (sink s')) ->
    stats (sink s') = updateStats result (stats (sink s)) ->
    panicked s' = false ->
    sink_effect cfg s s'.

(** The cell in row [i], column [j] of a table, if there is one. *)
Definition cell (table : list (list string)) (i j : nat) : option string :=
  row ← table !! i; row !! j.

(** ** The command-line layer around the pipeline *)

(** [strings.Split(s, sep)] for a one-byte separator: the pieces between
    the separators, one more than there are separators. *)
Fixpoint splitOn (sep : Ascii.ascii) (s : string) : list string :=
  match s with
  | EmptyString => [EmptyString]
  | String c rest =>
      if Ascii.eqb c sep then EmptyString :: splitOn sep rest
      else match splitOn sep rest with
           | part :: parts => String c part :: parts
           | [] => [String c EmptyString]
           end
  end.

(** The text before and after the first [sep]. This is
    [strings.SplitN(s, sep, 2)] when [strings.Contains(s, sep)], and [None]
    when [s] does not contain [sep]. *)
Fixpoint cutFirst (sep : Ascii.ascii) (s : string) : option (string * string) :=
  match s with
  | EmptyString => None
  | String c rest =>
      if Ascii.eqb c sep then Some (EmptyString, rest)
      else match cutFirst sep rest with
           | Some (before, after) => Some (String c before, after)
           | None => None
           end
  end.

(** How many times a byte occurs in a string. *)
Fixpoint countChar (sep : Ascii.ascii) (s : string) : nat :=
  match s with
  | EmptyString => 0%nat
  | String c rest => ((if Ascii.eqb c sep then 1 else 0) + countChar sep rest)%nat
  end.

(** The bytes [','] and [':']. *)
Definition comma : Ascii.ascii := Ascii.ascii_of_nat 44.
Definition colon : Ascii.ascii := Ascii.ascii_of_nat 58.

(** One turn of the loop of [parseColumnSpecs]. [strings.TrimSpace] is the
    library's (it also trims Unicode white space) and is a parameter. *)
Definition parseColumnSpec (trimSpace : string -> string) (part : string)
    : ColumnSpec :=
  let part := trimSpace part in
  match cutFirst colon part with
  | Some (name, type) =>
      {| Name := trimSpace name; DataType := trimSpace type |}
  | None => {| Name := part; DataType := "string" |}
  end.

Definition parseColumnSpecs (trimSpace : string -> string) (columnsStr : string)
    : list ColumnSpec :=
  parseColumnSpec trimSpace <$> splitOn comma columnsStr.

(** [strings.TrimSuffix]. *)
Definition trimSuffix (s suffix : string) : string :=
  if hasSuffix s suffix
  then String.substring 0 (String.length s - String.length suffix) s
  else s.

(** "Determine output file name" in [RunProcessData], for an empty
    [-output] flag. *)
Definition defaultOutputFile (inputFile outputFormat : string) : string :=
  let ext := if String.eqb outputFormat "csv" || hasSuffix inputFile ".csv"
             then ".csv" else ".xlsx" in
  let base := trimSuffix (trimSuffix inputFile ".csv") ".xlsx" in
  base +:+ "_enriched" +:+ ext.

(** [saveOutputFile]; [None] is its error return. *)
Definition saveOutputFile (outputFile : string) (headers : list string)
    (enrichedRows : list (list string)) (specs : list ColumnSpec)
    (format : string) (fs : gmap string File) : option (gmap string File) :=
  let fullHeaders := headers ++ getColumnNames specs in
  if String.eqb format "csv" || hasSuffix outputFile ".csv"
  then Some (saveCSV outputFile fullHeaders enrichedRows fs)
  else saveExcel outputFile fullHeaders enrichedRows fs.

(** [loadCSV] once [csv.Reader.ReadAll] has produced the records: the first
    record is the header, and there must be a data row. [None] is the error
    return. *)
Definition loadCSV (allData : list (list string))
    : option (list string * list (list string)) :=
  if decide (length allData < 2)%nat then None
  else match allData with
       | headers :: rows => Some (headers, rows)
       | [] => None
       end.

(** [loadExcel] on a workbook given as the rows of its sheets, in the order
    of [GetSheetList]; [sheetIndex] counts from 1. *)
Definition loadExcel (sheets : list (list (list string))) (sheetIndex : Z)
    : option (list string * list (list string)) :=
  if decide (sheetIndex < 1 \/ sheetIndex > Z.of_nat (length sheets)) then None
  else
    rows ← sheets !! Z.to_nat (sheetIndex - 1);
    if decide (length rows < 2)%nat then None
    else match rows with
         | headers :: rest => Some (headers, rest)
         | [] => None
         end.

(** [v[:maxLen] + "..."] for a value longer than [maxLen]. *)
Definition truncateValue (maxLen : nat) (v : string) : string :=
  if (maxLen <? String.length v)%nat
  then String.substring 0 maxLen v +:+ "..."
  else v.

(** [truncateMap]; for a negative [maxLen] the slice [v[:maxLen]] panics on
    the first entry, whichever it is. *)
Definition truncateMap (m : gmap string string) (maxLen : Z)
    : option (gmap string string) :=
  if decide (maxLen < 0) then (if decide (m = ∅) then Some ∅ else None)
  else Some (truncateValue (Z.to_nat maxLen) <$> m).

(** What [testSample] prints for one sample row. *)
Inductive SampleLine :=
| SampleError (rowNo : Z) (err : string)
| SampleOutput (rowNo : Z) (input : gmap string string)
    (output : gmap string string).

(** The loop of [testSample] from sample row number [i]; [call i rowData] is
    what [processRow] returns for that row. *)
Fixpoint testSample_loop (call : nat -> gmap string string -> Outcome)
    (headers : list string) (i : nat) (sample : list (list string))
    : list SampleLine :=
  match sample with
  | [] => []
  | row :: rest =>
      let rowData := buildRowData headers 0 row ∅ in
      let line :=
        match call i rowData with
        | RowErr err => SampleError (Z.of_nat i + 1) err
        | RowOk results _ =>
            SampleOutput (Z.of_nat i + 1)
              (default ∅ (truncateMap rowData 50)) results
        end in
      line :: testSample_loop call headers (S i) rest
  end.

(** [testSample]: the lines printed and the error returned ([None] is
    [nil]); the outer [None] is the panic of [rows[:sampleSize]] for a
    negative [sampleSize]. *)
Definition testSample (call : nat -> gmap string string -> Outcome)
    (headers : list string) (rows : list (list string)) (sampleSize : Z)
    : option (list SampleLine * option string) :=
  if decide (Z.of_nat (length rows) > sampleSize) then
    if decide (sampleSize < 0) then None
    else Some (testSample_loop call headers 0 (take (Z.to_nat sampleSize) rows),
               None)
  else Some (testSample_loop call headers 0 rows, None).

(** [strings.TrimSpace] on ASCII text, to evaluate the definitions above. *)
Definition isAsciiSpace (c : Ascii.ascii) : bool :=
  let n := Ascii.N_of_ascii c in
  ((9 <=? n) && (n <=? 13) || (n =? 32))%N.

Fixpoint trimLeft (s : string) : string :=
  match s with
  | String c rest => if isAsciiSpace c then trimLeft rest else s
  | EmptyString => EmptyString
  end.

Fixpoint trimRight (s : string) : string :=
  match s with
  | String c rest =>
      match trimRight rest with
      | EmptyString => if isAsciiSpace c then EmptyString else String c EmptyString
      | rest' => String c rest'
      end
  | EmptyString => EmptyString
  end.

Definition sample_trimSpace (s : string) : string := trimRight (trimLeft s).

(** ** Further invariants of the pipeline *)

(** A task as the sender builds it for a row of the table, and a result as a
    worker builds it from such a task. *)
Definition taskOfRow (cfg : Config) (task : ProcessingTask) : Prop :=
  exists (i : nat) (row : list string),
    rows cfg !! i = Some row /\ task = makeTask (headers cfg) i row.

Definition resultOfRow (cfg : Config) (result : ProcessingResult) : Prop :=
  exists (task : ProcessingTask) (o : Outcome),
    taskOfRow cfg task /\ result = workerResult (columnSpecs cfg) task o.

Definition workerHoldsRow (cfg : Config) (pc : WorkerPc) : Prop :=
  match pc with
  | WSelect task => taskOfRow cfg task
  | WSendResult result => resultOfRow cfg result
  | _ => True
  end.

(** Everything in the pipeline comes from a row of the table. *)
Definition origin_invariant (cfg : Config) (s : State) : Prop :=
  Forall (taskOfRow cfg) (taskChan s)
  /\ Forall (workerHoldsRow cfg) (workers s)
  /\ Forall (resultOfRow cfg) (resultChan s)
  /\ Forall (resultOfRow cfg) (applied s).

(** The rows are sent in ascending order: [sent] (latest first) is taken
    from the row indices gone past, descending, and is all of them while
    cancellation has not fired. *)
Definition order_invariant (cfg : Config) (s : State) : Prop :=
  sent s `sublist_of` reverse (rowIndices (rowsOffered cfg s))
  /\ (cancelled s = false -> sent s = reverse (rowIndices (rowsOffered cfg s))).

(** What the sink writes into a target cell: [result.Results[spec.Name]],
    or the empty string for a missing key. *)
Definition targetValue (results : gmap string string) (spec : ColumnSpec)
    : string :=
  match results !! Name spec with
  | Some val => val
  | None => ""%string
  end.

(** The target cells of a row with an applied result hold that result; a
    row without one is as it was at the start. *)
Definition content_invariant (cfg : Config) (s : State) : Prop :=
  (forall r, r ∈ applied s ->
   forall (k : nat) (spec : ColumnSpec), columnSpecs cfg !! k = Some spec ->
     cell (enrichedRows (sink s)) (Z.to_nat (RowIndex r))
       (length (headers cfg) + k)
     = Some (targetValue (Results r) spec))
  /\ (forall i : nat, Z.of_nat i ∉ RowIndex <$> applied s ->
      enrichedRows (sink s) !! i
      = makeEnrichedRows (rows cfg) (columnSpecs cfg) !! i).

(** The collector's bookkeeping: it writes no file but the checkpoint file,
    and that one only under an output name that ends in [.csv]; it has
    counted the results it applied. *)
Definition disk_invariant (cfg : Config) (s : State) : Prop :=
  (forall name, name <> outputFile cfg +:+ ".tmp" ->
     disk (sink s) !! name = None)
  /\ (if hasSuffix (outputFile cfg) ".csv"
      then saves (sink s) = 0%nat <-> disk (sink s) = ∅
      else disk (sink s) = ∅)
  /\ processedCount (sink s) = wrap 64 (Z.of_nat (length (applied s))).

(** A worker that has a result to send while the collector has left its
    loop and the result channel is full. *)
Definition stuck_worker (cfg : Config) (w : nat) (result : ProcessingResult)
    (s : State) : Prop :=
  workers s !! w = Some (WSendResult result)
  /\ collector s <> CLoop
  /\ (chanCap cfg <= length (resultChan s))%nat
  /\ resultChanClosed s = false
  /\ mainPc s = MWait.

(** Three rows and one worker; the collector is slow, the result channel
    fills up, and then the run is cancelled. *)
Definition sample_three_rows : Config :=
  {| headers := ["city"]; rows := [["Oslo"]; ["Lima"]; ["Rome"]];
     columnSpecs := [mkColumnSpec "country" "string"];
     workerCount := 1; batchSize := 100; outputFile := "out.csv" |}.

Definition sample_hanging_run : list Action :=
  [ASrcSend; AWorkRecv 0; AWorkCall 0 (RowErr "timeout"); AWorkSend 0;
   ASrcSend; AWorkRecv 0; AWorkCall 0 (RowErr "timeout"); AWorkSend 0;
   ASrcSend; AWorkRecv 0; AWorkCall 0 (RowErr "timeout");
   ACancel; ASinkCancel; ASrcClose].

(** The sample table with a batch size of one. *)
Definition sample_batch_one : Config :=
  {| headers := ["city"]; rows := [["Oslo"]; ["Lima"]];
     columnSpecs := [mkColumnSpec "country" "string"];
     workerCount := 1; batchSize := 1; outputFile := "out.csv" |}.

(** The sample table run with [-workers 0], and with [-batch-size 0]. *)
Definition sample_no_workers : Config :=
  {| headers := ["city"]; rows := [["Oslo"]; ["Lima"]];
     columnSpecs := [mkColumnSpec "country" "string"];
     workerCount := 0; batchSize := 100; outputFile := "out.csv" |}.

Definition sample_zero_batch : Config :=
  {| headers := ["city"]; rows := [["Oslo"]; ["Lima"]];
     columnSpecs := [mkColumnSpec "country" "string"];
     workerCount := 1; batchSize := 0; outputFile := "out.csv" |}.

Definition sample_first_result : list Action :=
  [ASrcSend; AWorkRecv 0; AWorkCall 0 (RowErr "timeout"); AWorkSend 0].

(** The sample table written to a workbook, and a table whose data row has
    one cell more than the header row, as [loadExcel] can return it. *)
Definition sample_xlsx : Config :=
  {| headers := ["city"]; rows := [["Oslo"]; ["Lima"]];
     columnSpecs := [mkColumnSpec "country" "string"];
     workerCount := 1; batchSize := 1; outputFile := "out.xlsx" |}.

Definition sample_wide_row : Config :=
  {| headers := ["city"]; rows := [["Oslo"; "capital"]];
     columnSpecs := [mkColumnSpec "country" "string"];
     workerCount := 1; batchSize := 100; outputFile := "out.csv" |}.

Definition sample_wide_run : list Action :=
  [ASrcSend; AWorkRecv 0; AWorkCall 0 (RowOk {[ "country" := "NO" ]} 7);
   AWorkSend 0; ASinkRecv].

(** * Properties *)

(** ** Column letters *)

Lemma columnIndexToLetter_loop_neg (index : Z) (result : string) :
  index < 0 -> columnIndexToLetter_loop index result = result.
Proof.
  intros Hneg. simp columnIndexToLetter_loop.
  destruct (decide (0 <= index)) as [Hge|Hlt]; simpl; [lia | reflexivity].
Qed.

Lemma columnIndexToLetter_loop_nonneg (index : Z) (result : string) :
  0 <= index ->
  columnIndexToLetter_loop index result =
  columnIndexToLetter_loop (index / 26 - 1)
    (String (Ascii.ascii_of_N (Z.to_N (65 + index mod 26))) result).
Proof.
  intros Hge. rewrite columnIndexToLetter_loop_equation_1.
  destruct (decide (0 <= index)) as [Hge'|Hlt]; simpl; [| lia].
  rewrite Z.quot_div_nonneg, Z.rem_mod_nonneg by lia. reflexivity.
Qed.

Lemma letterDigit_rune (r : Z) :
  0 <= r < 26 -> letterDigit (Ascii.ascii_of_N (Z.to_N (65 + r))) = r + 1.
Proof.
  intros Hr. unfold letterDigit. rewrite Ascii.N_ascii_embedding; lia.
Qed.

Lemma rune_letterDigit (c : Ascii.ascii) :
  Ascii.ascii_of_N (Z.to_N (65 + (letterDigit c - 1))) = c.
Proof.
  unfold letterDigit.
  replace (65 + (Z.of_N (Ascii.N_of_ascii c) - 64 - 1)) with (Z.of_N (Ascii.N_of_ascii c)) by lia.
  rewrite N2Z.id. apply Ascii.ascii_N_embedding.
Qed.

(** [String.append] is kept folded by [simpl]; these two equations unfold it. *)
Lemma string_app_nil (t : string) : "" +:+ t = t.
Proof. reflexivity. Qed.

Lemma string_app_cons (c : Ascii.ascii) (s t : string) :
  String c s +:+ t = String c (s +:+ t).
Proof. reflexivity. Qed.

Lemma string_app_assoc (s1 s2 s3 : string) :
  (s1 +:+ s2) +:+ s3 = s1 +:+ (s2 +:+ s3).
Proof.
  induction s1 as [|c s1 IH]; [reflexivity |].
  rewrite !string_app_cons. f_equal. exact IH.
Qed.

Lemma string_length_app (s1 s2 : string) :
  String.length (s1 +:+ s2) = (String.length s1 + String.length s2)%nat.
Proof.
  induction s1 as [|c s1 IH]; [reflexivity |].
  rewrite string_app_cons. simpl. by rewrite IH.
Qed.

Lemma string_app_inv_tail (s1 s2 t : string) : s1 +:+ t = s2 +:+ t -> s1 = s2.
Proof.
  revert s2. induction s1 as [|c s1 IH]; intros [|d s2] Heq;
    rewrite ?string_app_cons, ?string_app_nil in Heq.
  - reflexivity.
  - apply (f_equal String.length) in Heq. simpl in Heq.
    rewrite string_length_app in Heq. lia.
  - apply (f_equal String.length) in Heq. simpl in Heq.
    rewrite string_length_app in Heq. lia.
  - injection Heq as -> Heq. f_equal. by apply IH.
Qed.

Lemma bijValue_from_app (s1 s2 : string) (acc : Z) :
  bijValue_from acc (s1 +:+ s2) = bijValue_from (bijValue_from acc s1) s2.
Proof.
  revert acc. induction s1 as [|c s1 IH]; intros acc; [reflexivity |].
  rewrite string_app_cons. simpl. apply IH.
Qed.

Lemma allUpper_app (s1 s2 : string) :
  allUpper (s1 +:+ s2) <-> allUpper s1 /\ allUpper s2.
Proof.
  induction s1 as [|c s1 IH]; [rewrite string_app_nil; simpl; tauto |].
  rewrite string_app_cons. simpl. tauto.
Qed.

(** The loop only ever prepends to what it was given. *)
Lemma columnIndexToLetter_loop_app (index : Z) :
  forall result,
  columnIndexToLetter_loop index result = columnIndexToLetter index +:+ result.
Proof.
  induction (Z.lt_wf 0 index) as [n _ IH]. intros result.
  unfold columnIndexToLetter.
  destruct (decide (n < 0)) as [Hneg|Hge].
  { rewrite !columnIndexToLetter_loop_neg by lia. reflexivity. }
  rewrite !(columnIndexToLetter_loop_nonneg n) by lia.
  destruct (decide (n / 26 - 1 < 0)) as [Hsmall|Hbig].
  - rewrite !columnIndexToLetter_loop_neg by lia. reflexivity.
  - assert (0 <= n / 26 - 1 < n) as Hq.
    { pose proof (Z.div_mod n 26 ltac:(lia)). pose proof (Z.mod_pos_bound n 26 ltac:(lia)). lia. }
    rewrite (IH _ Hq), (IH _ Hq (String _ EmptyString)).
    rewrite string_app_assoc. reflexivity.
Qed.

Lemma columnIndexToLetter_value (index : Z) :
  0 <= index ->
  allUpper (columnIndexToLetter index) /\ bijValue (columnIndexToLetter index) = index + 1.
Proof.
  induction (Z.lt_wf 0 index) as [n _ IH]. intros Hn.
  unfold columnIndexToLetter.
  rewrite (columnIndexToLetter_loop_nonneg n) by lia.
  pose proof (Z.div_mod n 26 ltac:(lia)) as Hdm.
  pose proof (Z.mod_pos_bound n 26 ltac:(lia)) as Hm.
  destruct (decide (n / 26 - 1 < 0)) as [Hsmall|Hbig].
  - rewrite columnIndexToLetter_loop_neg by lia. unfold bijValue. simpl.
    rewrite letterDigit_rune by lia. split; [split; [lia | exact I] | lia].
  - assert (0 <= n / 26 - 1 < n) as Hq by lia.
    rewrite columnIndexToLetter_loop_app.
    destruct (IH _ Hq ltac:(lia)) as [Hup Hval].
    split.
    + apply allUpper_app. split; [exact Hup |]. simpl.
      rewrite letterDigit_rune by lia. split; [lia | exact I].
    + unfold bijValue in *. rewrite bijValue_from_app, Hval. simpl.
      rewrite letterDigit_rune by lia. lia.
Qed.

Lemma columnIndexToLetter_loop_of_value (s : string) :
  allUpper s -> forall acc result, 0 <= acc ->
  columnIndexToLetter_loop (bijValue_from acc s - 1) result =
  columnIndexToLetter_loop (acc - 1) (s +:+ result).
Proof.
  induction s as [|c s IH]; intros Hup acc result Hacc; [reflexivity |].
  rewrite string_app_cons. simpl. destruct Hup as [Hc Hup].
  rewrite IH by (auto; lia).
  rewrite (columnIndexToLetter_loop_nonneg (acc * 26 + letterDigit c - 1)) by lia.
  replace (acc * 26 + letterDigit c - 1) with ((letterDigit c - 1) + acc * 26) by lia.
  rewrite Z.div_add, Z.mod_add by lia.
  rewrite Z.div_small, Z.mod_small by lia.
  rewrite rune_letterDigit. reflexivity.
Qed.

Lemma columnIndexToLetter_of_value (s : string) :
  allUpper s -> columnIndexToLetter (bijValue s - 1) = s.
Proof.
  intros Hup. unfold columnIndexToLetter, bijValue.
  rewrite (columnIndexToLetter_loop_of_value s Hup 0 "") by lia.
  rewrite columnIndexToLetter_loop_neg by lia.
  clear Hup. induction s as [|c s IH]; [reflexivity |].
  rewrite string_app_cons. f_equal. exact IH.
Qed.

(** C10. For a non-negative column index, [columnIndexToLetter] is the
    bijective base-26 spreadsheet column name: 0, 25, 26, 701 and 702 give
    A, Z, AA, ZZ and AAA; the result consists of the letters A to Z and,
    read as a bijective base-26 numeral, is worth [n + 1]; every string of
    such letters is the name of its own value; the function is injective;
    and so, in one spreadsheet row, two distinct column indices never get
    the same cell name from [saveExcel]. *)
Theorem columnIndexToLetter_bijective_base26 (n m : Z) (Hn : 0 <= n) (Hm : 0 <= m) :
  (columnIndexToLetter 0 = "A" /\ columnIndexToLetter 25 = "Z"
   /\ columnIndexToLetter 26 = "AA" /\ columnIndexToLetter 701 = "ZZ"
   /\ columnIndexToLetter 702 = "AAA")%string
  /\ allUpper (columnIndexToLetter n)
  /\ bijValue (columnIndexToLetter n) = n + 1
  /\ (forall s, allUpper s -> columnIndexToLetter (bijValue s - 1) = s)
  /\ (columnIndexToLetter n = columnIndexToLetter m -> n = m)
  /\ (forall rowNo : Z, n <> m ->
        columnIndexToLetter n +:+ pretty rowNo
        <> columnIndexToLetter m +:+ pretty rowNo).
Proof.
  assert (columnIndexToLetter n = columnIndexToLetter m -> n = m) as Hinj.
  { intros Heq. apply (f_equal bijValue) in Heq.
    destruct (columnIndexToLetter_value n Hn) as [_ Hvn].
    destruct (columnIndexToLetter_value m Hm) as [_ Hvm]. lia. }
  split; [| split; [| split; [| split; [| split]]]].
  - repeat split; vm_compute; reflexivity.
  - apply columnIndexToLetter_value, Hn.
  - apply columnIndexToLetter_value, Hn.
  - apply columnIndexToLetter_of_value.
  - exact Hinj.
  - intros rowNo Hne Heq. apply Hne, Hinj.
    eapply string_app_inv_tail, Heq.
Qed.

Lemma columnIndexToLetter_bijective_base26_witness :
  0 <= 27 /\ 0 <= 703
  /\ bijValue (columnIndexToLetter 27) = 27 + 1
  /\ (columnIndexToLetter 27 = columnIndexToLetter 703 -> 27 = 703).
Proof.
  pose proof (columnIndexToLetter_bijective_base26 27 703 ltac:(lia) ltac:(lia))
    as (_ & _ & Hv & _ & Hinj & _).
  split; [lia | split; [lia | split; [exact Hv | exact Hinj]]].
Defined.

(** ** Workers and cell writes *)

Section Worker.
Context (specs : list ColumnSpec).

(** After the loop every key written so far maps to the sentinel. *)
Lemma errorResults_fold (err : string) (l : list ColumnSpec)
    (m : gmap string string) (k : string) :
  foldl (fun m spec => <[Name spec := "ERROR: " +:+ err]> m) m l !! k =
  if decide (k ∈ Name <$> l) then Some ("ERROR: " +:+ err) else m !! k.
Proof.
  revert m. induction l as [|spec l IH]; intros m; [done |].
  cbn [foldl]. rewrite IH, fmap_cons.
  destruct (decide (k ∈ Name <$> l)) as [Hl|Hl];
    destruct (decide (k ∈ Name spec :: (Name <$> l))) as [Hin|Hnin].
  - done.
  - exfalso. apply Hnin. by apply elem_of_cons; right.
  - apply elem_of_cons in Hin as [Heq | Hin]; [| done].
    subst k. apply lookup_insert_eq.
  - apply lookup_insert_ne. intros Heq. apply Hnin, elem_of_cons. by left.
Qed.

Lemma errorResults_lookup (err k : string) :
  errorResults specs err !! k =
  if decide (k ∈ Name <$> specs) then Some ("ERROR: " +:+ err) else None.
Proof. unfold errorResults. by rewrite errorResults_fold, lookup_empty. Qed.
End Worker.

Section Cells.
Context (results : gmap string string) (startIdx : nat).

Lemma setCell_Some (row row' : list string) (k : nat) (v : string) :
  setCell row k v = Some row' <-> (k < length row)%nat /\ row' = <[k := v]> row.
Proof.
  unfold setCell. case_decide as Hlt.
  - split; [intros [= <-]; done | intros [_ ->]; done].
  - split; [done | intros [? _]; lia].
Qed.

Lemma setCell_None (row : list string) (k : nat) (v : string) :
  setCell row k v = None <-> (length row <= k)%nat.
Proof. unfold setCell. case_decide; split; intros; try done; lia. Qed.

(** The loop succeeds exactly when its last write is in range. *)
Lemma writeTargets_is_Some (specs : list ColumnSpec) (i : nat) (row : list string) :
  is_Some (writeTargets results startIdx i specs row)
  <-> specs = [] \/ (startIdx + i + length specs <= length row)%nat.
Proof.
  revert i row. induction specs as [|spec rest IH]; intros i row; simpl.
  - split; [by left | by eexists].
  - unfold setCell. case_decide as Hlt; simpl.
    + rewrite IH, length_insert. split.
      * intros [-> | Hle]; right; simpl; lia.
      * intros [? | Hle]; [done |]. destruct rest; [by left | right; simpl in *; lia].
    + split; [by intros [? ?] |]. intros [? | Hle]; [done | lia].
Qed.

(** What a successful run of the loop leaves in the row. *)
Lemma writeTargets_Some (specs : list ColumnSpec) (i : nat) (row row' : list string) :
  writeTargets results startIdx i specs row = Some row' ->
  length row' = length row
  /\ (forall j : nat,
        (j < startIdx + i \/ startIdx + i + length specs <= j)%nat ->
        row' !! j = row !! j)
  /\ (forall (k : nat) (spec : ColumnSpec), specs !! k = Some spec ->
        row' !! (startIdx + i + k)%nat =
        Some (match results !! Name spec with Some val => val | None => ""%string end)).
Proof.
  revert i row. induction specs as [|spec rest IH]; intros i row Hw; simpl in *.
  - injection Hw as <-. split; [done |]. split; [done |]. intros k s Hk. done.
  - destruct (setCell row (startIdx + i) _) as [row1|] eqn:Hset; [| done]. simpl in Hw.
    apply setCell_Some in Hset as [Hlt ->].
    apply IH in Hw as (Hlen & Hframe & Hcells).
    rewrite length_insert in Hlen. split; [done |]. split.
    + intros j Hj. rewrite Hframe by lia. apply list_lookup_insert_ne. lia.
    + intros [|k] s Hk; simpl in Hk.
      * injection Hk as <-. rewrite Nat.add_0_r, Hframe by lia.
        by apply list_lookup_insert_eq.
      * replace (startIdx + i + S k)%nat with (startIdx + S i + k)%nat by lia.
        by apply Hcells.
Qed.
End Cells.

Section Apply.
Context (hdrs : list string) (specs : list ColumnSpec).

Lemma applyResult_Some (result : ProcessingResult) (table table' : list (list string)) :
  applyResult hdrs specs result table = Some table' ->
  exists row row',
    0 <= RowIndex result
    /\ table !! Z.to_nat (RowIndex result) = Some row
    /\ writeTargets (Results result) (length hdrs) 0 specs row = Some row'
    /\ table' = <[Z.to_nat (RowIndex result) := row']> table.
Proof.
  unfold applyResult. case_decide as Hidx; [| done].
  destruct (table !! _) as [row|] eqn:Hrow; [| done]. simpl.
  destruct (writeTargets _ _ _ _ _) as [row'|] eqn:Hw; [| done]. simpl.
  intros [= <-]. exists row, row'. repeat split; [lia | done..].
Qed.

(** Frame: applying a result keeps the number of rows and the length of
    every row, and changes no cell outside the target columns of the
    result's own row. *)
Lemma applyResult_frame (result : ProcessingResult) (table table' : list (list string)) :
  applyResult hdrs specs result table = Some table' ->
  length table' = length table
  /\ forall (i : nat) (out' : list string), table' !! i = Some out' ->
     exists out, table !! i = Some out
       /\ length out' = length out
       /\ forall j : nat,
            (i <> Z.to_nat (RowIndex result) \/ j < length hdrs
             \/ length hdrs + length specs <= j)%nat ->
            out' !! j = out !! j.
Proof.
  intros Happ. apply applyResult_Some in Happ as (row & row' & Hge & Hrow & Hw & ->).
  apply writeTargets_Some in Hw as (Hlen & Hframe & _).
  split; [by rewrite length_insert |].
  intros i out' Hi.
  destruct (decide (i = Z.to_nat (RowIndex result))) as [->|Hne].
  - rewrite list_lookup_insert_eq in Hi by (by eapply lookup_lt_Some).
    injection Hi as <-. exists row. split; [done |]. split; [done |].
    intros j Hj. apply Hframe. lia.
  - rewrite list_lookup_insert_ne in Hi by done. by exists out'.
Qed.
End Apply.

(** ** Cost accounting *)

(** C3, as the specification states it, fails: the sink applies a failed
    result that carries five tokens and the total cost stays where it was. *)
Lemma failed_result_cost_dropped :
  exists k, collectResults_select sample_cfg (EvResult sample_failed)
              (sink (start_state sample_cfg)) = SinkLoop k
    /\ Error sample_failed = Some "timeout"
    /\ Tokens sample_failed = 5
    /\ TotalTokens (stats (sink (start_state sample_cfg))) = 0
    /\ FailedRows (stats k) = 1
    /\ TotalTokens (stats k) = 0
    /\ TotalTokens (stats k)
       <> TotalTokens (stats (sink (start_state sample_cfg))) + Tokens sample_failed.
Proof. eexists. vm_compute. repeat split; congruence. Qed.

Lemma collectResults_select_result (cfg : Config) (result : ProcessingResult) (k k' : Sink) :
  collectResults_select cfg (EvResult result) k = SinkLoop k' ->
  batchSize cfg <> 0
  /\ applyResult (headers cfg) (columnSpecs cfg) result (enrichedRows k)
     = Some (enrichedRows k')
  /\ stats k' = updateStats result (stats k)
  /\ processedCount k' = add64 (processedCount k) 1.
Proof.
  simpl. destruct (applyResult _ _ _ _) as [table|]; [| done].
  case_decide as Hb; [done |]. case_decide; intros [= <-]; done.
Qed.

Lemma collectResults_select_result_signal (cfg : Config) (result : ProcessingResult)
    (k k' : Sink) :
  collectResults_select cfg (EvResult result) k <> SinkSignal k'.
Proof.
  simpl. destruct (applyResult _ _ _ _) as [table|]; [| done].
  case_decide; [done |]. case_decide; done.
Qed.

(** ** Failed rows and checkpoints *)

Lemma applyResult_is_Some_indep (hdrs : list string) (specs : list ColumnSpec)
    (r1 r2 : ProcessingResult) (table : list (list string)) :
  RowIndex r1 = RowIndex r2 ->
  is_Some (applyResult hdrs specs r1 table)
  <-> is_Some (applyResult hdrs specs r2 table).
Proof.
  intros Hidx. unfold applyResult. rewrite Hidx.
  case_decide; [| done].
  destruct (table !! Z.to_nat (RowIndex r2)) as [row|]; [| done]. simpl.
  pose proof (writeTargets_is_Some (Results r1) (length hdrs) specs 0 row) as H1.
  pose proof (writeTargets_is_Some (Results r2) (length hdrs) specs 0 row) as H2.
  destruct (writeTargets (Results r1) _ _ _ _) as [x|],
           (writeTargets (Results r2) _ _ _ _) as [y|]; simpl;
    split; intros Hs; try done.
  - exfalso. apply (is_Some_None (A := list string)). apply H2, H1. by eexists.
  - exfalso. apply (is_Some_None (A := list string)). apply H1, H2. by eexists.
Qed.

(** Whether applying a result makes the collector panic depends on the row
    the result names and on the batch size, not on what the result holds. *)
Lemma collectResults_select_panic (cfg : Config) (r1 r2 : ProcessingResult)
    (k : Sink) :
  RowIndex r1 = RowIndex r2 ->
  collectResults_select cfg (EvResult r1) k = SinkPanic
  <-> collectResults_select cfg (EvResult r2) k = SinkPanic.
Proof.
  intros Hidx. simpl.
  pose proof (applyResult_is_Some_indep (headers cfg) (columnSpecs cfg) r1 r2
                (enrichedRows k) Hidx) as Hiff.
  destruct (applyResult _ _ r1 _) as [t1|], (applyResult _ _ r2 _) as [t2|].
  - case_decide; [done |]. split; intros Hp; repeat case_decide; done.
  - exfalso. apply (is_Some_None (A := list (list string))). apply Hiff. by eexists.
  - exfalso. apply (is_Some_None (A := list (list string))). apply Hiff. by eexists.
  - done.
Qed.

(** C6. A worker whose call of the row transform fails, with whatever error,
    builds a result for the same row that carries the error as its failure
    marker and maps every declared target column, and nothing else, to
    "ERROR: " followed by the error text. The worker does not stop or
    panic: it goes on to send the result and, once the result channel has
    room, the result is in the channel and the worker is back at the task
    channel for its next task. In the sink, the failed result makes the
    collector panic only where a successful result for the same row would. *)
Theorem worker_failure_becomes_result (cfg : Config) (s : State) (w : nat)
    (task : ProcessingTask) (err : string)
    (Halive : panicked s = false)
    (Hlive : cancelled s = false)
    (Hw : workers s !! w = Some (WSelect task)) :
  let r := workerResult (columnSpecs cfg) task (RowErr err) in
  (Error r = Some err /\ RowIndex r = task_RowIndex task
   /\ (forall spec, spec ∈ columnSpecs cfg ->
         Results r !! Name spec = Some ("ERROR: " +:+ err))
   /\ (forall name v, Results r !! name = Some v ->
         v = "ERROR: " +:+ err /\ name ∈ Name <$> columnSpecs cfg))
  /\ exists s',
       do_action cfg (AWorkCall w (RowErr err)) s = Some s'
       /\ panicked s' = false
       /\ workers s' !! w = Some (WSendResult r)
       /\ resultChan s' = resultChan s
       /\ resultChanClosed s' = resultChanClosed s
       /\ (forall (k : Sink) (results : gmap string string) (tokens : Z),
             collectResults_select cfg (EvResult r) k = SinkPanic
             <-> collectResults_select cfg
                   (EvResult (workerResult (columnSpecs cfg) task
                                (RowOk results tokens))) k = SinkPanic)
       /\ (resultChanClosed s = false ->
           (length (resultChan s) < chanCap cfg)%nat ->
           exists s'',
             do_action cfg (AWorkSend w) s' = Some s''
             /\ panicked s'' = false
             /\ resultChan s'' = resultChan s ++ [r]
             /\ workers s'' !! w = Some WRange).
Proof.
  intros r. split.
  - subst r. simpl. split; [done |]. split; [done |]. split.
    + intros spec Hin. rewrite errorResults_lookup.
      case_decide as Hn; [done |]. exfalso. apply Hn.
      apply list_elem_of_fmap. by exists spec.
    + intros name v. rewrite errorResults_lookup.
      case_decide as Hn; [| done]. intros [= <-]. done.
  - assert (w < length (workers s))%nat as Hlt by (by eapply lookup_lt_Some).
    eexists. unfold do_action. rewrite Halive, Hw, Hlive.
    split; [reflexivity |]. simpl. split; [done |].
    split; [by apply list_lookup_insert_eq |].
    split; [done |]. split; [done |].
    split; [intros k results tokens; by apply collectResults_select_panic |].
    intros Hopen Hroom. eexists. rewrite Halive.
    rewrite list_lookup_insert_eq by done. rewrite Hopen.
    case_decide; [| done]. split; [reflexivity |]. simpl.
    split; [done |]. split; [done |].
    apply list_lookup_insert_eq. by rewrite length_insert.
Qed.

Lemma worker_failure_becomes_result_witness :
  panicked sample_holding = false /\ cancelled sample_holding = false
  /\ workers sample_holding !! 0%nat = Some (WSelect sample_task)
  /\ Results (workerResult (columnSpecs sample_cfg) sample_task (RowErr "timeout"))
       !! "country" = Some "ERROR: timeout".
Proof.
  assert (panicked sample_holding = false) as H1 by reflexivity.
  assert (cancelled sample_holding = false) as H2 by reflexivity.
  assert (workers sample_holding !! 0%nat = Some (WSelect sample_task)) as H3
    by (vm_compute; reflexivity).
  split; [exact H1 |]. split; [exact H2 |]. split; [exact H3 |].
  destruct (worker_failure_becomes_result sample_cfg sample_holding 0
              sample_task "timeout" H1 H2 H3) as [(_ & _ & Hall & _) _].
  apply (Hall (mkColumnSpec "country" "string")).
  apply list_elem_of_here.
Defined.

(** The scan for the extension finds what the end of the name holds. *)
Lemma scanExt_app (a b ext : string) :
  scanExt b = ExtFound ext -> scanExt (a +:+ b) = ExtFound ext.
Proof.
  intros Hb. induction a as [|c a IH].
  - by rewrite string_app_nil.
  - rewrite string_app_cons. cbn [scanExt]. by rewrite IH.
Qed.

(** [SaveAs] refuses every name of a checkpoint file: its extension is
    [.tmp]. *)
Lemma saveAsAccepts_tmp (out : string) : saveAsAccepts (out +:+ ".tmp") = false.
Proof.
  unfold saveAsAccepts, supportedWorkbook, fileExt.
  rewrite (scanExt_app out ".tmp" ".tmp") by reflexivity.
  apply andb_false_r.
Qed.

Lemma saveProgress_csv (out : string) (hdrs : list string)
    (table : list (list string)) (specs : list ColumnSpec) (fs : gmap string File) :
  hasSuffix out ".csv" = true ->
  saveProgress out hdrs table specs fs
  = <[out +:+ ".tmp" := CSVFile ((hdrs ++ getColumnNames specs) :: table)]> fs.
Proof. intros Hcsv. unfold saveProgress, saveCSV. by rewrite Hcsv. Qed.

Lemma saveProgress_workbook (out : string) (hdrs : list string)
    (table : list (list string)) (specs : list ColumnSpec) (fs : gmap string File) :
  hasSuffix out ".csv" = false ->
  saveProgress out hdrs table specs fs = fs.
Proof.
  intros Hcsv. unfold saveProgress, saveExcel.
  by rewrite Hcsv, saveAsAccepts_tmp.
Qed.

Lemma saveProgress_twice (out : string) (hdrs : list string)
    (table : list (list string)) (specs : list ColumnSpec) (fs : gmap string File) :
  saveProgress out hdrs table specs (saveProgress out hdrs table specs fs)
  = saveProgress out hdrs table specs fs.
Proof.
  destruct (hasSuffix out ".csv") eqn:Hcsv.
  - rewrite !saveProgress_csv by done. apply insert_insert_eq.
  - by rewrite !saveProgress_workbook.
Qed.

Lemma do_action_tick (cfg : Config) (s s' : State) :
  do_action cfg ASinkTick s = Some s' ->
  sink s' = checkpoint cfg (sink s).
Proof.
  unfold do_action. destruct (panicked s); [done |].
  destruct (collector s); [| done..]. by intros [= <-].
Qed.

(** C8. Writing a checkpoint twice with no result applied in between leaves
    the same file content: the second write changes nothing on disk and the
    table is not touched by a write. Under an output name that ends in
    [.csv] the temporary file holds the full header row and the current
    output table, a function of the headers, the column specs and the table
    alone. Under any other output name the workbook writer is refused the
    name of the temporary file and the error is dropped, so neither write
    leaves anything. *)
Theorem checkpoint_idempotent (cfg : Config) (s s1 s2 : State)
    (Hfirst : do_action cfg ASinkTick s = Some s1)
    (Hsecond : do_action cfg ASinkTick s1 = Some s2) :
  disk (sink s2) = disk (sink s1)
  /\ enrichedRows (sink s1) = enrichedRows (sink s)
  /\ enrichedRows (sink s2) = enrichedRows (sink s)
  /\ (hasSuffix (outputFile cfg) ".csv" = true ->
      disk (sink s1) !! (outputFile cfg +:+ ".tmp")
      = Some (CSVFile ((headers cfg ++ getColumnNames (columnSpecs cfg))
                         :: enrichedRows (sink s))))
  /\ (hasSuffix (outputFile cfg) ".csv" = false ->
      disk (sink s1) = disk (sink s))
  /\ forall (out : string) (hdrs : list string) (table : list (list string))
       (specs : list ColumnSpec) (fs : gmap string File),
       saveProgress out hdrs table specs (saveProgress out hdrs table specs fs)
       = saveProgress out hdrs table specs fs.
Proof.
  apply do_action_tick in Hfirst, Hsecond. rewrite Hsecond, Hfirst. simpl.
  split; [apply saveProgress_twice |]. split; [done |]. split; [done |].
  split; [| split; [| apply saveProgress_twice]].
  - intros Hcsv. rewrite saveProgress_csv by done. apply lookup_insert_eq.
  - intros Hcsv. by rewrite saveProgress_workbook.
Qed.

Lemma checkpoint_idempotent_witness :
  do_action sample_cfg ASinkTick (state_after sample_cfg [ASrcSend])
  = Some (state_after sample_cfg [ASrcSend; ASinkTick])
  /\ do_action sample_cfg ASinkTick (state_after sample_cfg [ASrcSend; ASinkTick])
     = Some (state_after sample_cfg [ASrcSend; ASinkTick; ASinkTick])
  /\ disk (sink (state_after sample_cfg [ASrcSend; ASinkTick; ASinkTick]))
     = disk (sink (state_after sample_cfg [ASrcSend; ASinkTick])).
Proof.
  assert (do_action sample_cfg ASinkTick (state_after sample_cfg [ASrcSend])
          = Some (state_after sample_cfg [ASrcSend; ASinkTick])) as H1
    by (vm_compute; reflexivity).
  assert (do_action sample_cfg ASinkTick
            (state_after sample_cfg [ASrcSend; ASinkTick])
          = Some (state_after sample_cfg [ASrcSend; ASinkTick; ASinkTick])) as H2
    by (vm_compute; reflexivity).
  split; [exact H1 |]. split; [exact H2 |].
  apply (checkpoint_idempotent sample_cfg _ _ _ H1 H2).
Defined.

(** ** Bounds of the target-column writes *)

Lemma makeEnrichedRows_lookup (table : list (list string)) (specs : list ColumnSpec)
    (i : nat) :
  makeEnrichedRows table specs !! i
  = (fun row => row ++ replicate (length specs) ""%string) <$> table !! i.
Proof. unfold makeEnrichedRows. apply list_lookup_fmap. Qed.

Lemma makeEnrichedRows_length (table : list (list string)) (specs : list ColumnSpec) :
  length (makeEnrichedRows table specs) = length table.
Proof. unfold makeEnrichedRows. apply length_fmap. Qed.

(** C9, as stated, fails in its last part: a row of two cells under three
    headers with two target columns is allocated four cells, so the first
    target-column write, at index 3, is in range; it is the second write, at
    index 4, that is past the end. *)
Lemma first_target_write_in_range :
  (length sample_ragged_row < length sample_ragged_headers)%nat
  /\ setCell (sample_ragged_row ++ replicate (length sample_ragged_specs) ""%string)
       (length sample_ragged_headers + 0) "v"
     = Some ["x"; "y"; ""; "v"]%string
  /\ setCell ["x"; "y"; ""; "v"]%string (length sample_ragged_headers + 1) "w" = None
  /\ writeTargets ∅ (length sample_ragged_headers) 0 sample_ragged_specs
       (sample_ragged_row ++ replicate (length sample_ragged_specs) ""%string)
     = None.
Proof. vm_compute. repeat split; lia. Qed.

(** C9, amended. Each output row is allocated with the cells of the input
    row plus one per target column, and a result writes the target values
    at indices [len(headers)] to [len(headers) + len(columnSpecs) - 1].
    With at least one target column, all these writes are in range if and
    only if the input row has at least as many cells as there are headers;
    this is also when applying a result to the row succeeds in the table the
    pipeline starts from. For a row with fewer cells than headers the last
    target write is past the end of the row and the loop panics; the first
    target write is past the end only if the row is short by at least the
    number of target columns. *)
Theorem sink_writes_in_range_iff (hdrs : list string) (specs : list ColumnSpec)
    (table : list (list string)) (i : nat) (row : list string)
    (result : ProcessingResult)
    (Hspecs : specs <> [])
    (Hrow : table !! i = Some row)
    (Hidx : RowIndex result = Z.of_nat i) :
  let out := row ++ replicate (length specs) ""%string in
  makeEnrichedRows table specs !! i = Some out
  /\ length out = (length row + length specs)%nat
  /\ (is_Some (writeTargets (Results result) (length hdrs) 0 specs out)
      <-> (length hdrs <= length row)%nat)
  /\ (is_Some (applyResult hdrs specs result (makeEnrichedRows table specs))
      <-> (length hdrs <= length row)%nat)
  /\ (forall out', writeTargets (Results result) (length hdrs) 0 specs out = Some out' ->
      forall (k : nat) (spec : ColumnSpec), specs !! k = Some spec ->
        out' !! (length hdrs + k)%nat
        = Some (match Results result !! Name spec with
                | Some val => val
                | None => ""%string
                end))
  /\ ((length row < length hdrs)%nat ->
      (length out <= length hdrs + (length specs - 1))%nat
      /\ writeTargets (Results result) (length hdrs) 0 specs out = None)
  /\ (forall v, setCell out (length hdrs + 0) v = None
      <-> (length row + length specs <= length hdrs)%nat).
Proof.
  intros out.
  assert (length out = (length row + length specs)%nat) as Hlen
    by (subst out; by rewrite length_app, length_replicate).
  assert (length specs <> 0%nat) as Hn by (by destruct specs).
  assert (makeEnrichedRows table specs !! i = Some out) as Hout
    by (by rewrite makeEnrichedRows_lookup, Hrow).
  assert (is_Some (writeTargets (Results result) (length hdrs) 0 specs out)
          <-> (length hdrs <= length row)%nat) as Hiff.
  { rewrite writeTargets_is_Some, Hlen. split; [intros [? | ?]; [done | lia] | right; lia]. }
  split; [exact Hout |]. split; [exact Hlen |]. split; [exact Hiff |].
  split; [| split; [| split]].
  - rewrite <- Hiff. unfold applyResult.
    rewrite Hidx, Nat2Z.id, makeEnrichedRows_length, Hout.
    apply lookup_lt_Some in Hrow.
    case_decide; [| lia]. simpl.
    destruct (writeTargets _ _ _ _ _); simpl; split; intros [? ?]; done.
  - intros out' Hw k spec Hk.
    apply writeTargets_Some in Hw as (_ & _ & Hcells).
    specialize (Hcells k spec Hk). by rewrite Nat.add_0_r in Hcells.
  - intros Hshort. split; [lia |].
    apply eq_None_not_Some. rewrite Hiff. lia.
  - intros v. rewrite setCell_None, Hlen. lia.
Qed.

Lemma sink_writes_in_range_iff_witness :
  sample_ragged_specs <> []
  /\ [sample_ragged_row] !! 0%nat = Some sample_ragged_row
  /\ RowIndex sample_failed = Z.of_nat 0
  /\ (is_Some (applyResult sample_ragged_headers sample_ragged_specs sample_failed
                 (makeEnrichedRows [sample_ragged_row] sample_ragged_specs))
      <-> (length sample_ragged_headers <= length sample_ragged_row)%nat).
Proof.
  assert (sample_ragged_specs <> []) as H1 by discriminate.
  assert ([sample_ragged_row] !! 0%nat = Some sample_ragged_row) as H2 by reflexivity.
  assert (RowIndex sample_failed = Z.of_nat 0) as H3 by reflexivity.
  split; [exact H1 |]. split; [exact H2 |]. split; [exact H3 |].
  apply (sink_writes_in_range_iff sample_ragged_headers sample_ragged_specs
           [sample_ragged_row] 0 sample_ragged_row sample_failed H1 H2 H3).
Defined.

(** ** Flow of row indices *)

(** Case analysis on an enabled action: one goal per way the action can
    happen, with the successor state substituted. *)
Ltac action_cases H :=
  unfold do_action in H;
  repeat match type of H with
    | context [match ?x with _ => _ end] =>
        let E := fresh "E" in destruct x eqn:E; try discriminate H
    end;
  try (injection H as <-).

Section Steps.
Context (cfg : Config).

Lemma collector_takes_cases (ev : SinkEvent) (s : State) :
  collector_takes cfg ev s = set_panicked s
  \/ exists pc k, collector_takes cfg ev s = set_collector pc k (received ev s).
Proof.
  unfold collector_takes. destruct (collectResults_select cfg ev (sink s)); eauto.
Qed.

Lemma workers_bind_insert (ws : list WorkerPc) (w : nat) (pc0 : WorkerPc) :
  ws !! w = Some pc0 ->
  exists others,
    ws ≫= workerHolds ≡ₚ workerHolds pc0 ++ others
    /\ forall pc, <[w := pc]> ws ≫= workerHolds ≡ₚ workerHolds pc ++ others.
Proof.
  intros Hw.
  exists ((take w ws ≫= workerHolds) ++ (drop (S w) ws ≫= workerHolds)).
  split.
  - rewrite <- (take_drop_middle ws w pc0 Hw) at 1.
    rewrite bind_app, bind_cons. solve_Permutation.
  - intros pc. rewrite insert_take_drop by (by eapply lookup_lt_Some).
    rewrite bind_app, bind_cons. solve_Permutation.
Qed.

Lemma rowIndices_S (n : nat) : rowIndices (S n) = rowIndices n ++ [Z.of_nat n].
Proof. unfold rowIndices. by rewrite seq_S, fmap_app. Qed.

Lemma flow_effect_preserves (s s' : State) :
  flow_invariant cfg s -> flow_effect cfg s s' -> flow_invariant cfg s'.
Proof.
  intros (Hle & Hin & Hsent & Hlive)
    [Hi Hs Hr Hc | i Hr Hlt Hr' Hi Hs Hc | Hlt Hr Hi Hs Hc
     | Hge Hr Hi Hs Hc | x Hi Hs Hr Hc];
    unfold flow_invariant.
  - rewrite Hi, Hs, Hr. split; [done |]. split; [done |]. split; [done |].
    intros Hc'. by apply Hlive, Hc.
  - rewrite Hi, Hs, Hr', Hc, rowIndices_S. subst i.
    split; [lia |]. split; [by apply submseteq_skip |].
    split.
    + rewrite (Permutation_cons_append (sent s)).
      by apply submseteq_app.
    + intros Hc'. destruct (Hlive Hc') as [H1 H2].
      split; [by rewrite H1 |].
      by rewrite (Permutation_cons_append (sent s)), H2.
  - rewrite Hi, Hs, Hr, Hc, rowIndices_S.
    split; [lia |]. split; [done |].
    split; [by apply submseteq_inserts_r |]. done.
  - rewrite Hi, Hs, Hr, Hc.
    assert (rowsOffered cfg s = length (rows cfg)) as Heq by lia.
    rewrite Heq in *. done.
  - rewrite Hs, Hr, Hc. split; [done |]. split; [| done].
    etrans; [| exact Hin]. rewrite Hi. by apply submseteq_cons.
Qed.

(** The indices held by the workers when worker [w] moves from [pc0] to
    [pc]. *)
Lemma inflight_set_worker (s : State) (w : nat) (pc0 pc : WorkerPc) :
  workers s !! w = Some pc0 ->
  workerHolds pc0 ++ inflight (set_worker w pc s)
  ≡ₚ workerHolds pc ++ inflight s.
Proof.
  intros Hw. destruct (workers_bind_insert _ _ _ Hw) as (others & H0 & Hpc).
  unfold inflight. simpl. rewrite H0, (Hpc pc). solve_Permutation.
Qed.

Lemma flow_effect_step (a : Action) (s s' : State) :
  do_action cfg a s = Some s' -> flow_effect cfg s s'.
Proof.
  intros H.
  action_cases H;
    try match goal with
      | |- context [collector_takes ?c ?ev ?s] =>
          unfold collector_takes;
          destruct (collectResults_select c ev (sink s)) eqn:?
      end;
    try (by apply FlowSame).
  - (* the sender sends row i *)
    match goal with
    | Hs : source s = SrcLoop ?i, Hr : rows cfg !! ?i = Some _ |- _ =>
        apply (FlowSend _ _ _ i); unfold rowsOffered, inflight; simpl;
        [by rewrite Hs | by eapply lookup_lt_Some | done | | done | done]
    end.
    rewrite fmap_app. simpl. solve_Permutation.
  - (* the sender skips row i *)
    match goal with
    | Hs : source s = SrcLoop ?i, Hr : rows cfg !! ?i = Some _ |- _ =>
        apply FlowSkip; unfold rowsOffered, inflight; simpl; rewrite ?Hs;
        [by eapply lookup_lt_Some | done..]
    end.
  - (* the sender closes the task channel *)
    match goal with
    | Hs : source s = SrcLoop ?i, Hr : rows cfg !! ?i = None |- _ =>
        apply FlowClose; unfold rowsOffered, inflight; simpl; rewrite ?Hs;
        [by apply lookup_ge_None | done..]
    end.
  - (* a worker receives a task *)
    match goal with
    | Hw : workers s !! ?w = Some WRange, Ht : taskChan s = ?t :: ?l |- _ =>
        apply FlowSame; [| done..];
        pose proof (inflight_set_worker (set_taskChan l s) w WRange (WSelect t) Hw) as Hp;
        simpl in Hp; rewrite Hp; unfold inflight; simpl; rewrite Ht; done
    end.
  - (* a worker leaves its loop *)
    match goal with
    | Hw : workers s !! ?w = Some WRange |- _ =>
        apply FlowSame; [| done..];
        exact (inflight_set_worker s w WRange WExited Hw)
    end.
  - (* a worker drops its task on cancellation *)
    match goal with
    | Hw : workers s !! ?w = Some (WSelect ?t) |- _ =>
        apply (FlowDrop _ _ _ (task_RowIndex t)); [| done..];
        symmetry; exact (inflight_set_worker s w (WSelect t) WExited Hw)
    end.
  - (* a worker calls the row transform *)
    apply FlowSame; [| done..].
    match goal with
    | Hw : workers s !! ?w = Some (WSelect ?t) |- _ =>
        pose proof (inflight_set_worker s w (WSelect t)
                      (WSendResult (workerResult (columnSpecs cfg) t o)) Hw) as Hp
    end.
    destruct o; cbn [workerHolds workerResult RowIndex app] in Hp;
      exact (Permutation_cons_inv Hp).
  - (* a worker sends its result *)
    apply FlowSame; [| done..].
    match goal with
    | Hw : workers s !! ?w = Some (WSendResult ?r) |- _ =>
        pose proof (inflight_set_worker
                      (set_resultChan (resultChan s ++ [r]) s) w
                      (WSendResult r) WRange Hw) as Hp;
        assert (inflight (set_resultChan (resultChan s ++ [r]) s)
                ≡ₚ RowIndex r :: inflight s) as Hq
          by (unfold inflight; simpl; rewrite fmap_app; simpl; solve_Permutation)
    end.
    cbn [workerHolds app] in Hp. rewrite Hq in Hp.
    exact (Permutation_cons_inv Hp).
  - (* the collector applies a result *)
    match goal with
    | Hr : resultChan s = ?r :: ?l |- _ =>
        apply FlowSame; [| done..];
        unfold inflight; simpl; rewrite Hr; simpl; solve_Permutation
    end.
  - match goal with
    | Hr : resultChan s = ?r :: ?l |- _ =>
        apply FlowSame; [| done..];
        unfold inflight; simpl; rewrite Hr; simpl; solve_Permutation
    end.
Qed.

Lemma flow_step (a : Action) (s s' : State) :
  flow_invariant cfg s -> do_action cfg a s = Some s' -> flow_invariant cfg s'.
Proof. intros Hinv H. eapply flow_effect_preserves, flow_effect_step; eauto. Qed.
End Steps.

(** ** Counters and table under a step *)

Section Wrap.
Lemma wrap_small (w z : Z) :
  0 < w -> - 2 ^ (w - 1) <= z < 2 ^ (w - 1) -> wrap w z = z.
Proof.
  intros Hw Hz. unfold wrap.
  assert (2 ^ w = 2 * 2 ^ (w - 1)) as Hpow.
  { replace w with (Z.succ (w - 1)) at 1 by lia. apply Z.pow_succ_r. lia. }
  rewrite Z.mod_small; lia.
Qed.

Lemma wrap_le (w z : Z) : 0 < w -> 0 <= z -> wrap w z <= z.
Proof.
  intros Hw Hz. unfold wrap.
  assert (0 < 2 ^ (w - 1)) by (apply Z.pow_pos_nonneg; lia).
  assert (0 < 2 ^ w) by (apply Z.pow_pos_nonneg; lia).
  pose proof (Z.mod_le (z + 2 ^ (w - 1)) (2 ^ w) ltac:(lia) ltac:(lia)). lia.
Qed.

Lemma wrap_add_wrap (w a b : Z) : 0 < w -> wrap w (wrap w a + b) = wrap w (a + b).
Proof.
  intros Hw. unfold wrap. f_equal.
  replace ((a + 2 ^ (w - 1)) mod 2 ^ w - 2 ^ (w - 1) + b + 2 ^ (w - 1))
    with ((a + 2 ^ (w - 1)) mod 2 ^ w + b) by lia.
  rewrite Zplus_mod_idemp_l. f_equal. lia.
Qed.
End Wrap.

Section Counts.
Lemma countOk_cons (r : ProcessingResult) (l : list ProcessingResult) :
  countOk (r :: l) = countOk l + (if succeeded r then 1 else 0).
Proof.
  unfold countOk. rewrite filter_cons.
  destruct (succeeded r); case_decide; simpl; try done; lia.
Qed.

Lemma countFailed_cons (r : ProcessingResult) (l : list ProcessingResult) :
  countFailed (r :: l) = countFailed l + (if succeeded r then 0 else 1).
Proof.
  unfold countFailed. rewrite filter_cons.
  destruct (succeeded r); case_decide; simpl; try done; lia.
Qed.

Lemma count_split (l : list ProcessingResult) :
  countOk l + countFailed l = Z.of_nat (length l).
Proof.
  induction l as [|r l IH]; [done |].
  rewrite countOk_cons, countFailed_cons. simpl length.
  destruct (succeeded r); lia.
Qed.

Lemma countOk_nonneg (l : list ProcessingResult) : 0 <= countOk l.
Proof. unfold countOk. lia. Qed.

Lemma countFailed_nonneg (l : list ProcessingResult) : 0 <= countFailed l.
Proof. unfold countFailed. lia. Qed.
End Counts.

Section SinkSteps.
Context (cfg : Config).

Lemma collectResults_select_other (ev : SinkEvent) (k k' : Sink) :
  (forall r, ev <> EvResult r) ->
  collectResults_select cfg ev k = SinkLoop k'
  \/ collectResults_select cfg ev k = SinkSignal k' ->
  enrichedRows k' = enrichedRows k /\ stats k' = stats k.
Proof.
  intros Hev [H | H]; destruct ev as [r| | |]; simpl in H;
    try (by destruct (Hev r)); try discriminate H; by injection H as <-.
Qed.

Lemma sink_effect_step (a : Action) (s s' : State) :
  do_action cfg a s = Some s' -> sink_effect cfg s s'.
Proof.
  intros H.
  action_cases H;
    try match goal with
      | |- context [collector_takes ?c ?ev ?s] =>
          unfold collector_takes;
          destruct (collectResults_select c ev (sink s)) as [k|k|] eqn:Hsel
      end;
    try (by apply SinkSame);
    try (apply SinkSame; simpl; [| | done];
         eapply collectResults_select_other; eauto; done).
  - match goal with
    | Hr : resultChan s = ?r :: ?l |- _ =>
        apply collectResults_select_result in Hsel as (_ & Happ & Hst & _);
        apply (SinkApplies _ _ _ r); simpl; rewrite ?Hr; done
    end.
  - by apply collectResults_select_result_signal in Hsel.
Qed.

Lemma stats_step (a : Action) (s s' : State) :
  stats_invariant cfg s -> do_action cfg a s = Some s' -> stats_invariant cfg s'.
Proof.
  intros (Htot & Hok & Hfail & Htok) H. unfold stats_invariant.
  destruct (sink_effect_step _ _ _ H) as [_ Hst Happ | r _ Happ _ Hst _];
    rewrite Hst, Happ; [done |].
  rewrite countOk_cons, countFailed_cons. cbn [tokensOk].
  unfold updateStats, succeeded, add32, add64.
  destruct (Error r); simpl; rewrite ?Z.add_0_r, ?Hok, ?Hfail, ?Htok;
    rewrite ?wrap_add_wrap by lia; [done |].
  repeat split; try done. f_equal. lia.
Qed.

Lemma table_step (a : Action) (s s' : State) :
  table_invariant cfg s -> do_action cfg a s = Some s' -> table_invariant cfg s'.
Proof.
  intros (Hlen & Hrows) H. unfold table_invariant.
  destruct (sink_effect_step _ _ _ H) as [Htab _ _ | r _ _ Happ _ _];
    [by rewrite Htab |].
  apply applyResult_frame in Happ as [Hlen' Hframe].
  split; [congruence |].
  intros i row Hi. destruct (Hrows i row Hi) as (out & Hout & Hlo & Hcells).
  destruct (lookup_lt_is_Some_2 (enrichedRows (sink s')) i) as [out' Hout'].
  { rewrite Hlen', Hlen. by eapply lookup_lt_Some. }
  exists out'. split; [done |].
  destruct (Hframe i out' Hout') as (out0 & Hout0 & Hl & Hsame).
  rewrite Hout in Hout0. injection Hout0 as <-.
  split; [lia |]. intros j Hj. rewrite Hsame by lia. by apply Hcells.
Qed.
End SinkSteps.

(** ** Control invariant and runs *)

Section Control.
Context (cfg : Config).

Lemma elem_of_insert_inv (ws : list WorkerPc) (w : nat) (pc x : WorkerPc) :
  x ∈ <[w := pc]> ws -> x = pc \/ x ∈ ws.
Proof.
  intros Hin. apply list_elem_of_lookup in Hin as [j Hj].
  destruct (decide (w = j)) as [<- | Hne].
  - destruct (decide (w < length ws)%nat) as [Hlt | Hge].
    + rewrite list_lookup_insert_eq in Hj by done. left. congruence.
    + rewrite list_insert_ge in Hj by lia. right.
      apply list_elem_of_lookup. eauto.
  - rewrite list_lookup_insert_ne in Hj by done. right.
    apply list_elem_of_lookup. eauto.
Qed.

Lemma all_exited_lookup (ws : list WorkerPc) (w : nat) (pc : WorkerPc) :
  forallb isExited ws = true -> ws !! w = Some pc -> pc = WExited.
Proof.
  intros Hall Hw. rewrite forallb_forall in Hall.
  assert (isExited pc = true) as Hpc.
  { apply Hall, list_elem_of_In, list_elem_of_lookup. eauto. }
  by destruct pc.
Qed.

Lemma all_exited_insert (ws : list WorkerPc) (w : nat) :
  forallb isExited ws = true -> forallb isExited (<[w := WExited]> ws) = true.
Proof.
  rewrite !forallb_forall. intros Hall pc Hin.
  apply list_elem_of_In, elem_of_insert_inv in Hin as [-> | Hin]; [done |].
  by apply Hall, list_elem_of_In.
Qed.

Lemma control_step (a : Action) (s s' : State) :
  control_invariant cfg s -> do_action cfg a s = Some s' ->
  control_invariant cfg s'.
Proof.
  intros (Hws & Hcap & Hclosed & Hexit & Hres & Hmain & Hcoll & Hret) H.
  action_cases H;
    try match goal with
      | |- context [collector_takes ?c ?ev ?s] =>
          unfold collector_takes;
          destruct (collectResults_select c ev (sink s)) as [k|k|] eqn:Hsel
      end;
    try (by apply collectResults_select_result_signal in Hsel);
    try discriminate Hsel;
    try match goal with
      | Hw : workers s !! _ = Some _ |- _ =>
          pose proof (fun Hall => all_exited_lookup _ _ _ Hall Hw) as Hmine
      end;
    unfold control_invariant; simpl;
    rewrite ?length_insert;
    (split; [done |]);
    (split; [try first [ done
                   | rewrite length_app; simpl; lia
                   | simpl in Hcap; lia ] |]);
    repeat split; intros;
    repeat match goal with
      | Hin : WExited ∈ <[_ := _]> _ |- _ =>
          apply elem_of_insert_inv in Hin as [Hin | Hin]; [try discriminate Hin |]
      end;
    try done;
    try (by apply all_exited_insert; auto);
    try (intuition congruence).
Qed.

Lemma workers_start_holds (n : nat) :
  replicate n WRange ≫= workerHolds = [].
Proof.
  induction n as [|n IH]; [done |].
  cbn [replicate]. rewrite bind_cons, IH. done.
Qed.

Lemma start_invariants (s : State) :
  start cfg = Some s ->
  flow_invariant cfg s /\ stats_invariant cfg s
  /\ table_invariant cfg s /\ control_invariant cfg s.
Proof.
  unfold start. case_decide as Hw; [done |]. intros [= <-].
  split; [| split; [| split]].
  - unfold flow_invariant, inflight, rowsOffered. simpl.
    rewrite workers_start_holds. split; [lia |]. done.
  - done.
  - split; [apply makeEnrichedRows_length |]. simpl.
    intros i row Hi. eexists. rewrite makeEnrichedRows_lookup, Hi.
    split; [done |]. split; [| done].
    by rewrite length_app, length_replicate.
  - unfold control_invariant. simpl. rewrite length_replicate.
    split; [done |]. split; [lia |]. split; [done |]. split.
    + intros _ Hin. apply elem_of_replicate in Hin as [? _]. done.
    + done.
Qed.

(** Every state of every run satisfies the four invariants. *)
Lemma run_from_invariants (trace : list Action) (s s' : State) :
  flow_invariant cfg s /\ stats_invariant cfg s
  /\ table_invariant cfg s /\ control_invariant cfg s ->
  run_from cfg trace s = Some s' ->
  flow_invariant cfg s' /\ stats_invariant cfg s'
  /\ table_invariant cfg s' /\ control_invariant cfg s'.
Proof.
  revert s. induction trace as [|a trace IH]; intros s Hinv Hrun; simpl in Hrun.
  - by injection Hrun as <-.
  - destruct (do_action cfg a s) as [s1|] eqn:Hstep; [| done]. simpl in Hrun.
    destruct Hinv as (Hf & Hs & Ht & Hc). apply (IH s1); [| done].
    split; [by eapply flow_step |]. split; [by eapply stats_step |].
    split; [by eapply table_step | by eapply control_step].
Qed.

Lemma run_invariants (trace : list Action) (s : State) :
  run cfg trace = Some s ->
  flow_invariant cfg s /\ stats_invariant cfg s
  /\ table_invariant cfg s /\ control_invariant cfg s.
Proof.
  unfold run. destruct (start cfg) as [s0|] eqn:Hstart; [| done]. simpl.
  apply run_from_invariants. by apply start_invariants.
Qed.
End Control.

(** ** Delivery *)

Section Multisets.
Lemma submseteq_NoDup (l k : list Z) : l ⊆+ k -> NoDup k -> NoDup l.
Proof.
  induction 1 as [|x l1 l2 Hsub IH|x y l|x l1 l2 Hsub IH|l1 l2 l3 _ IH1 _ IH2];
    intros Hk.
  - done.
  - apply NoDup_cons in Hk as [Hx Hk]. apply NoDup_cons. split; [| by apply IH].
    intros Hin. apply Hx. by eapply elem_of_submseteq.
  - by rewrite (Permutation_swap x y l).
  - apply NoDup_cons in Hk as [_ Hk]. by apply IH.
  - by apply IH1, IH2.
Qed.

Lemma rowIndices_NoDup (n : nat) : NoDup (rowIndices n).
Proof. unfold rowIndices. apply NoDup_fmap_2; [apply _ | apply NoDup_seq]. Qed.

Lemma rowIndices_length (n : nat) : length (rowIndices n) = n.
Proof. unfold rowIndices. by rewrite length_fmap, length_seq. Qed.

Lemma rowIndices_elem (n : nat) (x : Z) : x ∈ rowIndices n -> 0 <= x < Z.of_nat n.
Proof.
  unfold rowIndices. intros Hin.
  apply list_elem_of_fmap in Hin as (i & -> & Hi).
  apply elem_of_seq in Hi. lia.
Qed.
End Multisets.

Section Delivery.
Context (cfg : Config).

Lemma applied_inflight (s : State) : RowIndex <$> applied s ⊆+ inflight s.
Proof.
  unfold inflight.
  do 3 (apply submseteq_inserts_l). done.
Qed.

(** What was applied was sent, and what was sent is a row of the table. *)
Lemma applied_sent_rows (s : State) :
  flow_invariant cfg s ->
  RowIndex <$> applied s ⊆+ sent s
  /\ sent s ⊆+ rowIndices (length (rows cfg)).
Proof.
  intros (Hle & Hin & Hsent & _). split.
  - etrans; [apply applied_inflight | done].
  - etrans; [exact Hsent |]. unfold rowIndices.
    apply sublist_submseteq, fmap_sublist.
    replace (length (rows cfg)) with
      (rowsOffered cfg s + (length (rows cfg) - rowsOffered cfg s))%nat by lia.
    rewrite seq_app. apply sublist_inserts_r. done.
Qed.

(** Once [processFullDataset] has returned from a run that was never
    cancelled, nothing is left in the channels or with the workers. *)
Lemma drained_at_return (s : State) :
  control_invariant cfg s ->
  mainPc s = MReturned -> cancelled s = false ->
  inflight s = RowIndex <$> applied s.
Proof.
  intros (Hws & Hcap & Hclosed & Hexit & Hres & Hmain & Hcoll & Hret) Hm Hc.
  assert (collector s <> CLoop) as Hcol by (rewrite (Hret Hm); done).
  destruct (Hcoll Hc Hcol) as [Hrc Hrcl].
  specialize (Hres Hrcl).
  assert (workers s ≫= workerHolds = []) as Hholds.
  { clear -Hres. induction (workers s) as [|pc ws IH]; [done |].
    simpl in Hres. apply andb_true_iff in Hres as [Hpc Hall].
    rewrite bind_cons, (IH Hall). by destruct pc. }
  assert (taskChan s = []) as Htc.
  { destruct (workers s) as [|pc ws] eqn:Hw.
    - simpl in Hws. unfold chanCap in Hcap.
      destruct (taskChan s); [done |]. simpl in Hcap. lia.
    - simpl in Hres. apply andb_true_iff in Hres as [Hpc _].
      destruct pc; try done. apply Hexit; [done |]. apply list_elem_of_here. }
  unfold inflight. by rewrite Htc, Hholds, Hrc.
Qed.
End Delivery.

(** ** Delivery, cancellation and the final checkpoint *)

Section Counters.
Context (cfg : Config).

Lemma counters_exact (s : State) :
  flow_invariant cfg s -> stats_invariant cfg s ->
  Z.of_nat (length (rows cfg)) < 2 ^ 31 ->
  CompletedRows (stats (sink s)) = countOk (applied s)
  /\ FailedRows (stats (sink s)) = countFailed (applied s).
Proof.
  intros Hflow (_ & Hok & Hfail & _) Hsmall.
  destruct (applied_sent_rows cfg s Hflow) as [H1 H2].
  apply submseteq_length in H1, H2.
  rewrite length_fmap in H1. rewrite rowIndices_length in H2.
  pose proof (count_split (applied s)).
  pose proof (countOk_nonneg (applied s)).
  pose proof (countFailed_nonneg (applied s)).
  rewrite Hok, Hfail. split; apply wrap_small; lia.
Qed.

Lemma counters_le_applied (s : State) :
  stats_invariant cfg s ->
  CompletedRows (stats (sink s)) + FailedRows (stats (sink s))
  <= Z.of_nat (length (applied s)).
Proof.
  intros (_ & Hok & Hfail & _). rewrite Hok, Hfail, <- count_split.
  pose proof (wrap_le 32 _ ltac:(lia) (countOk_nonneg (applied s))).
  pose proof (wrap_le 32 _ ltac:(lia) (countFailed_nonneg (applied s))).
  lia.
Qed.
End Counters.

(** C1, as stated, fails for cancelled runs: both rows are sent, the worker
    drops the task it has pulled when it sees the cancellation, the other
    task stays in the channel, and [processFullDataset] returns with
    [completed + failed = 0] for two tasks sent. *)
Lemma cancelled_run_loses_tasks :
  run sample_cfg sample_cancelled_run
  = Some (state_after sample_cfg sample_cancelled_run)
  /\ mainPc (state_after sample_cfg sample_cancelled_run) = MReturned
  /\ cancelled (state_after sample_cfg sample_cancelled_run) = true
  /\ sent (state_after sample_cfg sample_cancelled_run) = [1; 0]
  /\ applied (state_after sample_cfg sample_cancelled_run) = []
  /\ CompletedRows (stats (sink (state_after sample_cfg sample_cancelled_run)))
     + FailedRows (stats (sink (state_after sample_cfg sample_cancelled_run)))
     <> Z.of_nat (length (sent (state_after sample_cfg sample_cancelled_run))).
Proof. vm_compute. repeat split; congruence. Qed.

(** C1, amended. In every run, every result applied by the sink is for a
    task that was sent, no task is sent twice and no row has two results
    applied, so [completed + failed] never exceeds the number of tasks
    sent. When [processFullDataset] returns from a run in which
    cancellation never fired, the applied results are exactly the tasks
    sent, one each, and (for a table of fewer than 2^31 rows, so that the
    [int32] counters have not wrapped) [completed + failed] equals the
    number of tasks sent. *)
Theorem one_result_per_task (cfg : Config) (trace : list Action) (s : State)
    (Hrun : run cfg trace = Some s) :
  NoDup (sent s)
  /\ NoDup (RowIndex <$> applied s)
  /\ RowIndex <$> applied s ⊆+ sent s
  /\ CompletedRows (stats (sink s)) + FailedRows (stats (sink s))
     <= Z.of_nat (length (sent s))
  /\ (mainPc s = MReturned -> cancelled s = false ->
      RowIndex <$> applied s ≡ₚ sent s
      /\ (Z.of_nat (length (rows cfg)) < 2 ^ 31 ->
          CompletedRows (stats (sink s)) + FailedRows (stats (sink s))
          = Z.of_nat (length (sent s)))).
Proof.
  destruct (run_invariants cfg trace s Hrun) as (Hflow & Hstats & _ & Hctl).
  destruct (applied_sent_rows cfg s Hflow) as [Has Hsr].
  assert (NoDup (sent s)) as Hnd
    by (eapply submseteq_NoDup; [exact Hsr | apply rowIndices_NoDup]).
  split; [exact Hnd |].
  split; [by eapply submseteq_NoDup |].
  split; [exact Has |].
  split.
  - pose proof (counters_le_applied cfg s Hstats).
    apply submseteq_length in Has. rewrite length_fmap in Has. lia.
  - intros Hret Hlive.
    destruct Hflow as (_ & _ & _ & Hperm). destruct (Hperm Hlive) as [Hin _].
    rewrite (drained_at_return cfg s Hctl Hret Hlive) in Hin.
    split; [exact Hin |]. intros Hsmall.
    destruct (run_invariants cfg trace s Hrun) as (Hflow & _).
    destruct (counters_exact cfg s Hflow Hstats Hsmall) as [-> ->].
    rewrite count_split. apply Permutation_length in Hin.
    rewrite length_fmap in Hin. lia.
Qed.

Lemma one_result_per_task_witness :
  run sample_cfg sample_run = Some (state_after sample_cfg sample_run)
  /\ mainPc (state_after sample_cfg sample_run) = MReturned
  /\ cancelled (state_after sample_cfg sample_run) = false
  /\ Z.of_nat (length (rows sample_cfg)) < 2 ^ 31
  /\ CompletedRows (stats (sink (state_after sample_cfg sample_run)))
     + FailedRows (stats (sink (state_after sample_cfg sample_run)))
     = Z.of_nat (length (sent (state_after sample_cfg sample_run))).
Proof.
  assert (run sample_cfg sample_run = Some (state_after sample_cfg sample_run))
    as Hrun by (vm_compute; reflexivity).
  assert (mainPc (state_after sample_cfg sample_run) = MReturned) as Hret
    by (vm_compute; reflexivity).
  assert (cancelled (state_after sample_cfg sample_run) = false) as Hlive
    by (vm_compute; reflexivity).
  assert (Z.of_nat (length (rows sample_cfg)) < 2 ^ 31) as Hsmall
    by (vm_compute; reflexivity).
  split; [exact Hrun |]. split; [exact Hret |]. split; [exact Hlive |].
  split; [exact Hsmall |].
  destruct (one_result_per_task sample_cfg sample_run _ Hrun)
    as (_ & _ & _ & _ & Hfinal).
  destruct (Hfinal Hret Hlive) as [_ Hcount]. exact (Hcount Hsmall).
Defined.

(** C2 on the code: after the sender has taken its [<-ctx.Done()] branch at
    row 0 (nothing sent so far), its loop goes on, and at row 1 the [select]
    may take the send branch: task 1 is sent after the cancellation was
    observed. *)
Theorem sender_sends_after_cancel_observed :
  run sample_cfg [ACancel; ASrcDone]
  = Some (state_after sample_cfg [ACancel; ASrcDone])
  /\ observed (state_after sample_cfg [ACancel; ASrcDone]) = true
  /\ sent (state_after sample_cfg [ACancel; ASrcDone]) = []
  /\ run sample_cfg sample_late_send
     = Some (state_after sample_cfg sample_late_send)
  /\ cancelled (state_after sample_cfg sample_late_send) = true
  /\ sent (state_after sample_cfg sample_late_send) = [1]
  /\ sentAfter (state_after sample_cfg sample_late_send) = [1]
  /\ task_RowIndex <$> taskChan (state_after sample_cfg sample_late_send) = [1].
Proof. vm_compute. repeat split; reflexivity. Qed.




(** ** Counters and the output table *)

(** C7. In every state of every run [completed + failed] is at most the
    total row count, which is the number of input rows. Both counters start
    at zero. A step either leaves the counters alone or applies one result,
    and then exactly one of the two counters goes up by one (an [int32]
    increment; the sum goes up by exactly one for a table of fewer than
    2^31 rows). The results applied are for pairwise distinct rows of the
    table, so at most one result is applied per input row. *)
Theorem counters_never_exceed_total (cfg : Config) (trace : list Action)
    (s : State) (Hrun : run cfg trace = Some s) :
  CompletedRows (stats (sink s)) + FailedRows (stats (sink s))
  <= TotalRows (stats (sink s))
  /\ TotalRows (stats (sink s)) = Z.of_nat (length (rows cfg))
  /\ (CompletedRows (stats (sink (start_state cfg))) = 0
      /\ FailedRows (stats (sink (start_state cfg))) = 0)
  /\ NoDup (RowIndex <$> applied s)
  /\ (forall r, r ∈ applied s -> 0 <= RowIndex r < Z.of_nat (length (rows cfg)))
  /\ forall (a : Action) (s' : State), do_action cfg a s = Some s' ->
       (stats (sink s') = stats (sink s) /\ applied s' = applied s)
       \/ exists r, applied s' = r :: applied s
            /\ ((Error r = None
                 /\ CompletedRows (stats (sink s'))
                    = add32 (CompletedRows (stats (sink s))) 1
                 /\ FailedRows (stats (sink s')) = FailedRows (stats (sink s)))
                \/ (Error r <> None
                    /\ CompletedRows (stats (sink s'))
                       = CompletedRows (stats (sink s))
                    /\ FailedRows (stats (sink s'))
                       = add32 (FailedRows (stats (sink s))) 1))
            /\ (Z.of_nat (length (rows cfg)) < 2 ^ 31 ->
                CompletedRows (stats (sink s')) + FailedRows (stats (sink s'))
                = CompletedRows (stats (sink s)) + FailedRows (stats (sink s)) + 1).
Proof.
  destruct (run_invariants cfg trace s Hrun) as (Hflow & Hstats & _ & _).
  destruct (applied_sent_rows cfg s Hflow) as [Has Hsr].
  assert (RowIndex <$> applied s ⊆+ rowIndices (length (rows cfg))) as Hrows
    by (by etrans).
  split.
  - pose proof (counters_le_applied cfg s Hstats).
    apply submseteq_length in Hrows.
    rewrite length_fmap, rowIndices_length in Hrows.
    destruct Hstats as (-> & _). lia.
  - split; [by destruct Hstats |]. split; [done |].
    split; [eapply submseteq_NoDup; [exact Hrows | apply rowIndices_NoDup] |].
    split.
    + intros r Hr. apply rowIndices_elem.
      eapply elem_of_submseteq; [| exact Hrows].
      apply list_elem_of_fmap. by exists r.
    + intros a s' Hstep.
      destruct (sink_effect_step cfg a s s' Hstep)
        as [_ Hst Happ | r _ Happ _ Hst _]; [by left |].
      right. exists r. split; [exact Happ |]. split.
      * rewrite Hst. unfold updateStats.
        destruct (Error r) eqn:Herr; simpl; [right | left]; done.
      * intros Hsmall.
        pose proof (flow_step cfg a s s' Hflow Hstep) as Hflow'.
        pose proof (stats_step cfg a s s' Hstats Hstep) as Hstats'.
        destruct (counters_exact cfg s Hflow Hstats Hsmall) as [-> ->].
        destruct (counters_exact cfg s' Hflow' Hstats' Hsmall) as [-> ->].
        rewrite !count_split, Happ. simpl length. lia.
Qed.

Lemma counters_never_exceed_total_witness :
  run sample_cfg sample_run = Some (state_after sample_cfg sample_run)
  /\ CompletedRows (stats (sink (state_after sample_cfg sample_run)))
     + FailedRows (stats (sink (state_after sample_cfg sample_run)))
     <= TotalRows (stats (sink (state_after sample_cfg sample_run))).
Proof.
  assert (run sample_cfg sample_run = Some (state_after sample_cfg sample_run))
    as Hrun by (vm_compute; reflexivity).
  split; [exact Hrun |].
  apply (counters_never_exceed_total sample_cfg sample_run _ Hrun).
Defined.

(** C3, amended. In every state of every run the total cost is the
    ([int64]) sum of the tokens of the successful results applied so far:
    failed results contribute nothing. When the sink applies a result, the
    token count is added to the total if the result has no failure marker;
    a failed result leaves the total as it was, whatever tokens it carries.
    The results the workers build for failed rows carry zero tokens. *)
Theorem tokens_added_on_success_only (cfg : Config) (trace : list Action)
    (s : State) (Hrun : run cfg trace = Some s) :
  TotalTokens (stats (sink s)) = wrap 64 (tokensOk (applied s))
  /\ (forall (result : ProcessingResult) (k' : Sink),
      collectResults_select cfg (EvResult result) (sink s) = SinkLoop k' ->
      TotalTokens (stats k') =
        match Error result with
        | None => add64 (TotalTokens (stats (sink s))) (Tokens result)
        | Some _ => TotalTokens (stats (sink s))
        end)
  /\ forall task err,
       Tokens (workerResult (columnSpecs cfg) task (RowErr err)) = 0.
Proof.
  destruct (run_invariants cfg trace s Hrun) as (_ & (_ & _ & _ & Htok) & _).
  split; [exact Htok |]. split; [| done].
  intros result k' Hsel.
  apply collectResults_select_result in Hsel as (_ & _ & -> & _).
  unfold updateStats. by destruct (Error result).
Qed.

Lemma tokens_added_on_success_only_witness :
  run sample_cfg sample_run = Some (state_after sample_cfg sample_run)
  /\ TotalTokens (stats (sink (state_after sample_cfg sample_run))) = 7.
Proof.
  assert (run sample_cfg sample_run = Some (state_after sample_cfg sample_run))
    as Hrun by (vm_compute; reflexivity).
  split; [exact Hrun |].
  destruct (tokens_added_on_success_only sample_cfg sample_run _ Hrun)
    as (Htok & _).
  rewrite Htok. vm_compute. reflexivity.
Defined.

Lemma cell_frame (table table' : list (list string)) (i j : nat) :
  (forall out', table' !! i = Some out' ->
     exists out, table !! i = Some out /\ out' !! j = out !! j) ->
  length table' = length table ->
  cell table' i j = cell table i j.
Proof.
  intros Hrow Hlen. unfold cell.
  destruct (table' !! i) as [out'|] eqn:Hi; simpl.
  - destruct (Hrow out' eq_refl) as (out & -> & Hj). done.
  - apply lookup_ge_None in Hi. rewrite Hlen in Hi.
    apply lookup_ge_None in Hi. by rewrite Hi.
Qed.

(** In every state of every run the output table has as many rows as
    the input, row [i] of the output is row [i] of the input widened by one
    cell per target column, and every cell of it that lies under a header
    is the input cell; a row with no more cells than there are headers is
    found whole at the front of its output row. Applying a result keeps the
    number of rows and changes no cell outside the target-column range
    [len(headers) .. len(headers) + len(columnSpecs) - 1] of the row the
    result names. *)
Lemma output_table_keeps_input (cfg : Config) (trace : list Action) (s : State)
    (Hrun : run cfg trace = Some s) :
  length (enrichedRows (sink s)) = length (rows cfg)
  /\ (forall (i : nat) (row : list string), rows cfg !! i = Some row ->
      exists out, enrichedRows (sink s) !! i = Some out
        /\ length out = (length row + length (columnSpecs cfg))%nat
        /\ (forall j : nat, (j < length (headers cfg))%nat -> (j < length row)%nat ->
             out !! j = row !! j)
        /\ ((length row <= length (headers cfg))%nat -> take (length row) out = row))
  /\ (forall (result : ProcessingResult) (table' : list (list string)),
      applyResult (headers cfg) (columnSpecs cfg) result (enrichedRows (sink s))
      = Some table' ->
      length table' = length (enrichedRows (sink s))
      /\ forall i j : nat,
           ~ (i = Z.to_nat (RowIndex result)
              /\ length (headers cfg) <= j
                 < length (headers cfg) + length (columnSpecs cfg))%nat ->
           cell table' i j = cell (enrichedRows (sink s)) i j).
Proof.
  destruct (run_invariants cfg trace s Hrun) as (_ & _ & (Hlen & Hrows) & _).
  split; [exact Hlen |]. split.
  - intros i row Hi. destruct (Hrows i row Hi) as (out & Hout & Hlo & Hcells).
    exists out. split; [done |]. split; [done |].
    assert (forall j : nat, (j < length (headers cfg))%nat -> (j < length row)%nat ->
              out !! j = row !! j) as Hunder
      by (intros j Hj Hjr; rewrite Hcells by lia; by apply lookup_app_l).
    split; [exact Hunder |].
    intros Hshort. apply list_eq. intros j.
    destruct (decide (j < length row)%nat) as [Hj | Hj].
    + rewrite lookup_take_lt by done. apply Hunder; lia.
    + rewrite lookup_take_ge by lia. symmetry. apply lookup_ge_None. lia.
  - intros result table' Happ.
    apply applyResult_frame in Happ as [Hlen' Hframe].
    split; [exact Hlen' |]. intros i j Hij.
    apply cell_frame; [| exact Hlen'].
    intros out' Hout'. destruct (Hframe i out' Hout') as (out & Hout & _ & Hsame).
    exists out. split; [done |]. apply Hsame. lia.
Qed.

(** C5. The table is allocated with the new cells after each row's own
    cells, but a result is written from index [len(headers)] on. For a data
    row with one cell more than the header row, as a sheet can hold it, the
    value of the target column lands on the row's last input cell and the
    cell reserved for it stays empty: the input cell ["capital"] is gone
    from the output table, while the row count and the cell under the
    header are kept. *)
Theorem surplus_input_cell_overwritten :
  rows sample_wide_row = [["Oslo"; "capital"]]
  /\ makeEnrichedRows (rows sample_wide_row) (columnSpecs sample_wide_row)
     = [["Oslo"; "capital"; ""]]
  /\ run sample_wide_row sample_wide_run
     = Some (state_after sample_wide_row sample_wide_run)
  /\ panicked (state_after sample_wide_row sample_wide_run) = false
  /\ enrichedRows (sink (state_after sample_wide_row sample_wide_run))
     = [["Oslo"; "NO"; ""]].
Proof. repeat split; vm_compute; reflexivity. Qed.

(** ** Flags: output name and column specifications *)

Section StringFacts.
Lemma substring_0_length (m : nat) (s : string) :
  String.length (String.substring 0 m s) = Nat.min m (String.length s).
Proof.
  revert m. induction s as [|c s IH]; intros [|m]; simpl; try done.
  by rewrite IH.
Qed.

Lemma substring_app_skip (a b : string) (n k : nat) :
  String.substring (String.length a + n) k (a +:+ b) = String.substring n k b.
Proof.
  induction a as [|c a IH]; [done |].
  rewrite string_app_cons. simpl. exact IH.
Qed.

(** Whether a string ends in [c] is decided by its last [length c] bytes. *)
Lemma hasSuffix_app (a b c : string) :
  (String.length c <= String.length b)%nat ->
  hasSuffix (a +:+ b) c = hasSuffix b c.
Proof.
  intros Hle. unfold hasSuffix. rewrite string_length_app.
  replace (String.length c <=? String.length a + String.length b)%nat
    with true by (symmetry; apply Nat.leb_le; lia).
  replace (String.length c <=? String.length b)%nat
    with true by (symmetry; apply Nat.leb_le; lia).
  replace (String.length a + String.length b - String.length c)%nat
    with (String.length a + (String.length b - String.length c))%nat by lia.
  by rewrite substring_app_skip.
Qed.

Lemma trimSuffix_length (s suffix : string) :
  (String.length (trimSuffix s suffix) <= String.length s
   <= String.length (trimSuffix s suffix) + String.length suffix)%nat.
Proof.
  unfold trimSuffix. destruct (hasSuffix s suffix); [| lia].
  rewrite substring_0_length. lia.
Qed.
End StringFacts.

Section OutputName.
Context (inputFile outputFormat : string).

Lemma defaultOutputFile_cases :
  (String.eqb outputFormat "csv" || hasSuffix inputFile ".csv" = true
   /\ defaultOutputFile inputFile outputFormat
      = trimSuffix (trimSuffix inputFile ".csv") ".xlsx" +:+ "_enriched.csv")
  \/ (String.eqb outputFormat "csv" || hasSuffix inputFile ".csv" = false
      /\ defaultOutputFile inputFile outputFormat
         = trimSuffix (trimSuffix inputFile ".csv") ".xlsx" +:+ "_enriched.xlsx").
Proof.
  unfold defaultOutputFile.
  destruct (String.eqb outputFormat "csv" || hasSuffix inputFile ".csv");
    [left | right]; done.
Qed.

(** The default output name is longer than the input name, so neither the
    final output nor the checkpoint file [outputFile + ".tmp"] is the input
    file. It ends in [_enriched.csv] when CSV was asked for or the input
    is a CSV file, and in [_enriched.xlsx] otherwise. *)
Theorem defaultOutputFile_not_input :
  (String.length inputFile
   < String.length (defaultOutputFile inputFile outputFormat))%nat
  /\ defaultOutputFile inputFile outputFormat <> inputFile
  /\ defaultOutputFile inputFile outputFormat +:+ ".tmp" <> inputFile
  /\ hasSuffix (defaultOutputFile inputFile outputFormat)
       (if String.eqb outputFormat "csv" || hasSuffix inputFile ".csv"
        then "_enriched.csv" else "_enriched.xlsx") = true.
Proof.
  pose proof (trimSuffix_length inputFile ".csv") as H1.
  pose proof (trimSuffix_length (trimSuffix inputFile ".csv") ".xlsx") as H2.
  simpl in H1, H2.
  assert (String.length inputFile
          < String.length (defaultOutputFile inputFile outputFormat))%nat as Hlen.
  { destruct defaultOutputFile_cases as [[_ ->] | [_ ->]];
      rewrite string_length_app; simpl; lia. }
  split; [exact Hlen |]. split; [| split].
  - intros Heq. rewrite Heq in Hlen. lia.
  - intros Heq. apply (f_equal String.length) in Heq.
    rewrite string_length_app in Heq. simpl in Heq. lia.
  - destruct defaultOutputFile_cases as [[-> ->] | [-> ->]];
      rewrite hasSuffix_app by (simpl; lia); reflexivity.
Qed.

(** With the default output name the final output is written in the
    format the name says. When the name ends in [.csv], which is exactly
    when CSV was asked for or the input is a CSV file, the final file
    holds the records a checkpoint of the same table holds. Otherwise the
    name ends in [.xlsx]: the final output is a workbook, unless the name
    is longer than [SaveAs] accepts and the save fails, and no checkpoint
    is ever written. *)
Theorem default_output_format_agrees (hdrs : list string)
    (table : list (list string)) (specs : list ColumnSpec)
    (fs : gmap string File) :
  hasSuffix (defaultOutputFile inputFile outputFormat) ".csv"
  = (String.eqb outputFormat "csv" || hasSuffix inputFile ".csv")
  /\ (hasSuffix (defaultOutputFile inputFile outputFormat) ".csv" = true ->
      saveOutputFile (defaultOutputFile inputFile outputFormat) hdrs table
        specs outputFormat fs
      = Some (<[defaultOutputFile inputFile outputFormat :=
                 CSVFile ((hdrs ++ getColumnNames specs) :: table)]> fs)
      /\ saveProgress (defaultOutputFile inputFile outputFormat) hdrs table
           specs fs
         = <[defaultOutputFile inputFile outputFormat +:+ ".tmp" :=
               CSVFile ((hdrs ++ getColumnNames specs) :: table)]> fs)
  /\ (hasSuffix (defaultOutputFile inputFile outputFormat) ".csv" = false ->
      saveProgress (defaultOutputFile inputFile outputFormat) hdrs table
        specs fs = fs
      /\ saveOutputFile (defaultOutputFile inputFile outputFormat) hdrs table
           specs outputFormat fs
         = if (String.length (defaultOutputFile inputFile outputFormat)
               <=? MaxFilePathLength)%nat
           then Some (<[defaultOutputFile inputFile outputFormat :=
                         ExcelFile (setExcelRows 0 table
                                      (setExcelRow 1 0
                                         (hdrs ++ getColumnNames specs) ∅))]> fs)
           else None).
Proof.
  assert (hasSuffix (defaultOutputFile inputFile outputFormat) ".csv"
          = (String.eqb outputFormat "csv" || hasSuffix inputFile ".csv")) as Hsuf.
  { destruct defaultOutputFile_cases as [[-> ->] | [-> ->]];
      rewrite hasSuffix_app by (simpl; lia); reflexivity. }
  split; [exact Hsuf |]. split.
  - intros Hcsv. split; [| by apply saveProgress_csv].
    unfold saveOutputFile. rewrite Hcsv, orb_true_r. done.
  - intros Hcsv. split; [by apply saveProgress_workbook |].
    unfold saveOutputFile, saveExcel, saveAsAccepts. rewrite Hcsv.
    rewrite Hsuf in Hcsv.
    assert (supportedWorkbook (defaultOutputFile inputFile outputFormat) = true)
      as ->.
    { destruct defaultOutputFile_cases as [[Hc _] | [_ ->]]; [congruence |].
      unfold supportedWorkbook, fileExt.
      by rewrite (scanExt_app _ "_enriched.xlsx" ".xlsx"). }
    apply orb_false_elim in Hcsv as [-> _]. simpl.
    by rewrite andb_true_r.
Qed.
End OutputName.

Section ColumnSpecs.
Context (trimSpace : string -> string).

Lemma splitOn_length (sep : Ascii.ascii) (s : string) :
  length (splitOn sep s) = S (countChar sep s).
Proof.
  induction s as [|c s IH]; [done |]. simpl.
  destruct (Ascii.eqb c sep); simpl; [by rewrite IH |].
  destruct (splitOn sep s) as [|part parts]; simpl in *; lia.
Qed.

Lemma splitOn_concat (sep : Ascii.ascii) (s : string) :
  String.concat (String sep EmptyString) (splitOn sep s) = s.
Proof.
  induction s as [|c s IH]; [done |]. simpl.
  destruct (Ascii.eqb_spec c sep) as [-> | Hne].
  - pose proof (splitOn_length sep s) as Hlen.
    destruct (splitOn sep s) as [|part parts] eqn:Hs; [done |].
    simpl. simpl in IH. by rewrite IH.
  - pose proof (splitOn_length sep s) as Hlen.
    destruct (splitOn sep s) as [|part parts] eqn:Hs; [done |].
    simpl in *. destruct parts; simpl in *; by rewrite <- IH.
Qed.

(** [parseColumnSpecs] yields one spec per comma-separated piece, empty
    pieces included: one more than there are commas, and so never an empty
    list. The pieces, joined by commas, are the flag value. *)
Theorem parseColumnSpecs_count (columnsStr : string) :
  length (parseColumnSpecs trimSpace columnsStr)
  = S (countChar comma columnsStr)
  /\ parseColumnSpecs trimSpace columnsStr <> []
  /\ String.concat "," (splitOn comma columnsStr) = columnsStr.
Proof.
  assert (length (parseColumnSpecs trimSpace columnsStr)
          = S (countChar comma columnsStr)) as Hlen
    by (unfold parseColumnSpecs; by rewrite length_fmap, splitOn_length).
  split; [exact Hlen |]. split.
  - intros Hnil. by rewrite Hnil in Hlen.
  - apply (splitOn_concat comma).
Qed.
Lemma cutFirst_None (sep : Ascii.ascii) (s : string) :
  countChar sep s = 0%nat -> cutFirst sep s = None.
Proof.
  induction s as [|c s IH]; [done |]. simpl.
  destruct (Ascii.eqb c sep); [done |]. intros Hs. by rewrite IH.
Qed.

Lemma cutFirst_app (sep : Ascii.ascii) (a b : string) :
  countChar sep a = 0%nat ->
  cutFirst sep (a +:+ String sep b) = Some (a, b).
Proof.
  induction a as [|c a IH]; intros Ha.
  - rewrite string_app_nil. simpl. by rewrite Ascii.eqb_refl.
  - rewrite string_app_cons. simpl in *.
    destruct (Ascii.eqb c sep); [done |]. by rewrite IH.
Qed.

(** A column specification is split at its first colon only: the text
    before it, trimmed, is the column name and everything after it,
    further colons included, is the type hint. Without a colon the type
    hint is ["string"]. *)
Theorem parseColumnSpec_splits_at_first_colon (part : string) :
  (countChar colon (trimSpace part) = 0%nat ->
   parseColumnSpec trimSpace part
   = {| Name := trimSpace part; DataType := "string" |})
  /\ (forall name type : string,
        trimSpace part = name +:+ String colon type ->
        countChar colon name = 0%nat ->
        parseColumnSpec trimSpace part
        = {| Name := trimSpace name; DataType := trimSpace type |}).
Proof.
  unfold parseColumnSpec. split.
  - intros Hnone. by rewrite cutFirst_None.
  - intros name type -> Hname. by rewrite cutFirst_app.
Qed.
End ColumnSpecs.

(** [saveOutputFile] returns an error exactly when CSV is neither asked for
    with [-format csv] nor named by an output name ending in [.csv], and the
    workbook writer does not accept the name, as for an output name with no
    extension. Nothing is written then. When it succeeds it writes the
    output file and no other. *)
Theorem saveOutputFile_fails_iff_unsupported_name (outputFile format : string)
    (hdrs : list string) (table : list (list string))
    (specs : list ColumnSpec) (fs : gmap string File) :
  (saveOutputFile outputFile hdrs table specs format fs = None
   <-> format <> "csv"%string /\ hasSuffix outputFile ".csv" = false
       /\ saveAsAccepts outputFile = false)
  /\ (forall fs', saveOutputFile outputFile hdrs table specs format fs = Some fs' ->
        is_Some (fs' !! outputFile)
        /\ forall name, name <> outputFile -> fs' !! name = fs !! name).
Proof.
  split.
  - unfold saveOutputFile, saveExcel.
    destruct (String.eqb_spec format "csv") as [-> | Hne]; simpl.
    { split; [discriminate | by intros [? _]]. }
    destruct (hasSuffix outputFile ".csv"); simpl.
    { split; [discriminate | by intros (_ & ? & _)]. }
    destruct (saveAsAccepts outputFile).
    + split; [discriminate | by intros (_ & _ & ?)].
    + done.
  - intros fs' Hsave.
    assert (exists file, fs' = <[outputFile := file]> fs) as [file ->].
    { unfold saveOutputFile, saveCSV, saveExcel in Hsave.
      destruct (String.eqb format "csv" || hasSuffix outputFile ".csv").
      - injection Hsave as <-. by eexists.
      - destruct (saveAsAccepts outputFile); [| done].
        injection Hsave as <-. by eexists. }
    split; [rewrite lookup_insert_eq; by eexists |].
    intros name Hname. by apply lookup_insert_ne.
Qed.

Lemma saveOutputFile_fails_iff_unsupported_name_witness :
  saveOutputFile "out" ["city"] [["Oslo"; "NO"]]
    [mkColumnSpec "country" "string"] "same" ∅ = None.
Proof.
  apply (saveOutputFile_fails_iff_unsupported_name "out" "same").
  split; [discriminate |]. split; reflexivity.
Defined.

Lemma default_output_format_agrees_witness :
  hasSuffix (defaultOutputFile "in.xlsx" "same") ".csv" = false
  /\ saveProgress (defaultOutputFile "in.xlsx" "same") ["city"] [["Oslo"; "NO"]]
       [mkColumnSpec "country" "string"] ∅ = ∅.
Proof.
  assert (hasSuffix (defaultOutputFile "in.xlsx" "same") ".csv" = false) as Hx
    by reflexivity.
  split; [exact Hx |].
  destruct (default_output_format_agrees "in.xlsx" "same" ["city"]
              [["Oslo"; "NO"]] [mkColumnSpec "country" "string"] ∅)
    as (_ & _ & Hbook).
  exact (proj1 (Hbook Hx)).
Defined.

Lemma parseColumnSpec_splits_at_first_colon_witness :
  countChar colon (sample_trimSpace " risk ") = 0%nat
  /\ parseColumnSpec sample_trimSpace " risk "
     = {| Name := "risk"; DataType := "string" |}.
Proof.
  assert (countChar colon (sample_trimSpace " risk ") = 0%nat) as Hnone
    by reflexivity.
  split; [exact Hnone |].
  exact (proj1 (parseColumnSpec_splits_at_first_colon sample_trimSpace " risk ")
           Hnone).
Defined.

(** ** Loading, row data and the sample test *)

Section Loaders.
Lemma loadCSV_Some (allData : list (list string)) (hdrs : list string)
    (table : list (list string)) :
  loadCSV allData = Some (hdrs, table) <-> allData = hdrs :: table /\ table <> [].
Proof.
  unfold loadCSV. case_decide as Hlen.
  - split; [done |]. intros [-> Hne]. destruct table; [done | simpl in Hlen; lia].
  - destruct allData as [|h [|r rest]]; simpl in Hlen; try lia.
    split; [by intros [= <- <-] | by intros [[= <- <-] _]].
Qed.

(** [loadCSV] fails exactly when the reader produced fewer than two
    records; otherwise the first record is the header row and the others,
    at least one, are the data rows in order. [loadExcel] applies the same
    rule to the rows of the chosen sheet. *)
Theorem loadCSV_needs_data_row (allData : list (list string))
    (hdrs : list string) (table : list (list string)) :
  (loadCSV allData = Some (hdrs, table)
   <-> allData = hdrs :: table /\ table <> [])
  /\ (loadCSV allData = None <-> (length allData < 2)%nat)
  /\ loadExcel [allData] 1 = loadCSV allData.
Proof.
  split; [apply loadCSV_Some |]. split.
  - unfold loadCSV. case_decide as Hlen; [done |].
    destruct allData; simpl in *; [lia |]. split; [done | lia].
  - unfold loadExcel, loadCSV.
    case_decide as Hidx; [exfalso; cbn [length] in Hidx; lia |]. done.
Qed.

(** [loadExcel] succeeds exactly when the 1-based sheet index names a
    sheet of the workbook and that sheet has a header and a data row; it
    then returns the first row of that sheet as headers and the others,
    in order, as rows. *)
Theorem loadExcel_sheet_index (sheets : list (list (list string)))
    (sheetIndex : Z) (hdrs : list string) (table : list (list string)) :
  loadExcel sheets sheetIndex = Some (hdrs, table)
  <-> 1 <= sheetIndex <= Z.of_nat (length sheets)
      /\ sheets !! Z.to_nat (sheetIndex - 1) = Some (hdrs :: table)
      /\ table <> [].
Proof.
  unfold loadExcel. case_decide as Hidx.
  - split; [done |]. intros [? _]. lia.
  - destruct (sheets !! Z.to_nat (sheetIndex - 1)) as [rows|] eqn:Hsheet; simpl.
    + case_decide as Hlen.
      * split; [done |]. intros (_ & [= ->] & Hne).
        destruct table; [done | simpl in Hlen; lia].
      * destruct rows as [|h [|r rest]]; simpl in Hlen; try lia.
        split.
        -- intros [= <- <-]. split; [lia |]. done.
        -- by intros (_ & [= <- <-] & _).
    + split; [done |]. by intros (_ & ? & _).
Qed.
End Loaders.

Section RowData.
Context (row : list string).

Lemma buildRowData_other (hdrs : list string) (j0 : nat)
    (m : gmap string string) (key : string) :
  key ∉ hdrs -> buildRowData hdrs j0 row m !! key = m !! key.
Proof.
  revert j0 m. induction hdrs as [|h hdrs IH]; intros j0 m Hnin; [done |].
  simpl. apply not_elem_of_cons in Hnin as [Hne Hnin].
  rewrite IH by done. by apply lookup_insert_ne.
Qed.

Lemma buildRowData_last (hdrs : list string) (j0 j : nat)
    (m : gmap string string) (h : string) :
  hdrs !! j = Some h ->
  (forall j', (j < j')%nat -> hdrs !! j' <> Some h) ->
  buildRowData hdrs j0 row m !! h
  = Some (match row !! (j0 + j)%nat with Some v => v | None => ""%string end).
Proof.
  revert j0 j m. induction hdrs as [|h0 hdrs IH]; intros j0 j m Hj Hlast; [done |].
  destruct j as [|j]; simpl in *.
  - injection Hj as ->. rewrite buildRowData_other.
    + rewrite Nat.add_0_r. apply lookup_insert_eq.
    + intros Hin. apply list_elem_of_lookup in Hin as [k Hk].
      by apply (Hlast (S k) ltac:(lia)).
  - replace (j0 + S j)%nat with (S j0 + j)%nat by lia.
    apply IH; [done |]. intros j' Hlt. apply (Hlast (S j')). lia.
Qed.

Lemma buildRowData_is_Some (hdrs : list string) (j0 : nat)
    (m : gmap string string) (key : string) :
  is_Some (buildRowData hdrs j0 row m !! key) <-> key ∈ hdrs \/ is_Some (m !! key).
Proof.
  revert j0 m. induction hdrs as [|h hdrs IH]; intros j0 m; simpl.
  - rewrite elem_of_nil. tauto.
  - rewrite IH, elem_of_cons.
    destruct (decide (h = key)) as [-> | Hne].
    + rewrite lookup_insert_eq. split; [intros _; by left; left |].
      intros _. right. by eexists.
    + rewrite lookup_insert_ne by done. split; [tauto |].
      intros [[Heq | ?] | ?]; [congruence | tauto..].
Qed.
End RowData.

(** The row data handed to the row transform has exactly the header names
    as keys. A header holds the cell of its column, or the empty string when
    the row has no cell there; of several columns with the same header name
    only the last one is kept. *)
Theorem rowData_by_header (hdrs row : list string) (j : nat) (h : string)
    (Hj : hdrs !! j = Some h)
    (Hlast : forall j', (j < j')%nat -> hdrs !! j' <> Some h) :
  buildRowData hdrs 0 row ∅ !! h
  = Some (match row !! j with Some v => v | None => ""%string end)
  /\ (forall key, is_Some (buildRowData hdrs 0 row ∅ !! key) <-> key ∈ hdrs)
  /\ task_RowData (makeTask hdrs j row) = buildRowData hdrs 0 row ∅.
Proof.
  split; [by apply (buildRowData_last row hdrs 0 j) |]. split; [| done].
  intros key. rewrite buildRowData_is_Some, lookup_empty.
  split; [intros [? | [? ?]]; done | by left].
Qed.

Lemma rowData_by_header_witness :
  ["city"; "zip"; "city"] !! 2%nat = Some "city"
  /\ buildRowData ["city"; "zip"; "city"] 0 ["Oslo"; "0150"] ∅ !! "city" = Some "".
Proof.
  assert (["city"; "zip"; "city"] !! 2%nat = Some "city") as Hj by reflexivity.
  split; [exact Hj |].
  refine (proj1 (rowData_by_header ["city"; "zip"; "city"] ["Oslo"; "0150"]
                   2 "city" Hj _)).
  intros [|[|[|j']]] Hlt; simpl; try discriminate; lia.
Defined.

Section Sample.
Lemma truncateValue_length (maxLen : nat) (v : string) :
  (String.length (truncateValue maxLen v) <= maxLen + 3)%nat
  /\ ((String.length v <= maxLen)%nat -> truncateValue maxLen v = v).
Proof.
  unfold truncateValue. destruct (Nat.ltb_spec maxLen (String.length v)).
  - rewrite string_length_app, substring_0_length. simpl. split; lia.
  - split; [lia | done].
Qed.

(** [truncateMap] keeps the keys; every value comes back at most
    [maxLen + 3] bytes long, and unchanged if it had at most [maxLen]
    bytes. A negative [maxLen] makes it panic unless the map is empty. *)
Theorem truncateMap_bounds (m : gmap string string) (maxLen : Z) :
  (0 <= maxLen ->
   exists m', truncateMap m maxLen = Some m'
     /\ dom m' = dom m
     /\ forall key v, m !! key = Some v ->
          exists v', m' !! key = Some v'
            /\ Z.of_nat (String.length v') <= maxLen + 3
            /\ (Z.of_nat (String.length v) <= maxLen -> v' = v))
  /\ (maxLen < 0 -> (truncateMap m maxLen = None <-> m <> ∅)).
Proof.
  unfold truncateMap. split.
  - intros Hge. case_decide; [lia |]. eexists. split; [done |].
    split; [apply dom_fmap_L |].
    intros key v Hv. rewrite lookup_fmap, Hv. eexists. split; [done |].
    destruct (truncateValue_length (Z.to_nat maxLen) v) as [Hlen Hsame].
    split; [lia |]. intros Hshort. apply Hsame. lia.
  - intros Hneg. case_decide; [| lia]. case_decide; split; done.
Qed.

Lemma testSample_loop_length (call : nat -> gmap string string -> Outcome)
    (hdrs : list string) (i : nat) (sample : list (list string)) :
  length (testSample_loop call hdrs i sample) = length sample.
Proof.
  revert i. induction sample as [|row rest IH]; intros i; [done |].
  simpl. by rewrite IH.
Qed.

(** [testSample] calls the row transform on the first
    [min(len(rows), sampleSize)] rows and always returns a nil error,
    whatever the calls return, even if every one of them fails. A negative
    sample size makes the slice [rows[:sampleSize]] panic. *)
Theorem testSample_never_fails (call : nat -> gmap string string -> Outcome)
    (hdrs : list string) (table : list (list string)) (sampleSize : Z) :
  (0 <= sampleSize ->
   exists lines, testSample call hdrs table sampleSize = Some (lines, None)
     /\ Z.of_nat (length lines) = Z.min (Z.of_nat (length table)) sampleSize)
  /\ (sampleSize < 0 -> testSample call hdrs table sampleSize = None).
Proof.
  unfold testSample. split.
  - intros Hge. case_decide as Hlen.
    + case_decide; [lia |]. eexists. split; [done |].
      rewrite testSample_loop_length, length_take. lia.
    + eexists. split; [done |]. rewrite testSample_loop_length. lia.
  - intros Hneg. case_decide; [| lia]. case_decide; [done | lia].
Qed.
End Sample.

Lemma truncateMap_bounds_witness :
  0 <= 3
  /\ exists m', truncateMap (<["k" := "abcdef"]> ∅) 3 = Some m'
       /\ m' !! "k" = Some "abc...".
Proof.
  split; [lia |].
  destruct (truncateMap_bounds (<["k" := "abcdef"]> ∅) 3) as [Hok _].
  destruct (Hok ltac:(lia)) as (m' & Htrunc & _ & _).
  exists m'. split; [exact Htrunc |].
  vm_compute in Htrunc. injection Htrunc as <-. reflexivity.
Defined.

Lemma testSample_never_fails_witness :
  0 <= 2
  /\ exists lines,
       testSample (fun _ _ => RowErr "timeout") ["city"]
         [["Oslo"]; ["Lima"]; ["Rome"]] 2 = Some (lines, None)
       /\ Z.of_nat (length lines) = 2.
Proof.
  split; [lia |].
  destruct (testSample_never_fails (fun _ _ => RowErr "timeout") ["city"]
              [["Oslo"]; ["Lima"]; ["Rome"]] 2) as [Hok _].
  destruct (Hok ltac:(lia)) as (lines & Hrun & Hlen).
  exists lines. split; [exact Hrun | exact Hlen].
Defined.

(** ** Cell names of the workbook writer *)

Section CellNames.
Lemma pretty_N_char_not_letter (x : N) : letterDigit (pretty_N_char x) < 1.
Proof. unfold pretty_N_char. repeat case_match; vm_compute; done. Qed.

(** A positive number is printed starting with a digit. *)
Lemma pretty_N_go_starts_digit (x : N) (s : string) :
  (0 < x)%N ->
  exists c rest, pretty_N_go x s = String c rest /\ letterDigit c < 1.
Proof.
  revert s. induction (N.lt_wf_0 x) as [x _ IH]. intros s Hpos.
  rewrite pretty_N_go_step by done.
  destruct (decide (x `div` 10 = 0)%N) as [Hz | Hnz].
  - rewrite Hz, pretty_N_go_0. eexists _, _. split; [done |].
    apply pretty_N_char_not_letter.
  - apply IH; [apply N.div_lt; [done | done] | by apply N.neq_0_lt_0].
Qed.

Lemma pretty_Z_starts_digit (r : Z) :
  0 < r -> exists c rest, pretty r = String c rest /\ letterDigit c < 1.
Proof.
  intros Hpos. destruct r as [|p|p]; try lia.
  unfold pretty, pretty_Z, pretty, pretty_positive, pretty, pretty_N.
  case_decide; [done |]. apply pretty_N_go_starts_digit. lia.
Qed.

(** Letters followed by a number split in one way only. *)
Lemma letters_digits_split (a b d e : string) :
  allUpper a -> allUpper b ->
  (exists c rest, d = String c rest /\ letterDigit c < 1) ->
  (exists c rest, e = String c rest /\ letterDigit c < 1) ->
  a +:+ d = b +:+ e -> a = b /\ d = e.
Proof.
  revert b. induction a as [|x a IH]; intros [|y b] Ha Hb Hd He Heq;
    rewrite ?string_app_nil, ?string_app_cons in Heq.
  - done.
  - destruct Hd as (c & rest & -> & Hc). injection Heq as <- _.
    destruct Hb as [Hy _]. lia.
  - destruct He as (c & rest & -> & Hc). injection Heq as -> _.
    destruct Ha as [Hx _]. lia.
  - injection Heq as <- Heq. destruct Ha as [_ Ha], Hb as [_ Hb].
    destruct (IH b Ha Hb Hd He Heq) as [-> ->]. done.
Qed.

(** Distinct cells of the sheet have distinct names. *)
Lemma cell_name_inj (j j' r r' : Z) :
  0 <= j -> 0 <= j' -> 0 < r -> 0 < r' ->
  columnIndexToLetter j +:+ pretty r = columnIndexToLetter j' +:+ pretty r' ->
  j = j' /\ r = r'.
Proof.
  intros Hj Hj' Hr Hr' Heq.
  destruct (columnIndexToLetter_value j Hj) as [Hup Hval].
  destruct (columnIndexToLetter_value j' Hj') as [Hup' Hval'].
  apply letters_digits_split in Heq as [Hl Hp];
    auto using pretty_Z_starts_digit.
  split; [| by apply (inj pretty)].
  apply (f_equal bijValue) in Hl. lia.
Qed.
End CellNames.

Section ExcelWriter.
(** A cell name that no accepted cell of the row has is left alone. *)
Lemma setExcelRow_skip (rowNo j0 : Z) (row : list string)
    (f : gmap string string) (key : string) :
  (forall k : nat, (k < length row)%nat ->
     key = columnIndexToLetter (j0 + Z.of_nat k) +:+ pretty rowNo ->
     cellAccepted (j0 + Z.of_nat k) rowNo = false) ->
  setExcelRow rowNo j0 row f !! key = f !! key.
Proof.
  revert j0 f. induction row as [|v rest IH]; intros j0 f Hkey; [done |].
  cbn [setExcelRow]. rewrite IH.
  - destruct (cellAccepted j0 rowNo) eqn:Hacc; [| done].
    apply lookup_insert_ne. intros Heq.
    specialize (Hkey 0%nat). rewrite Z.add_0_r in Hkey.
    rewrite Hkey in Hacc; [done | simpl; lia | done].
  - intros k Hk. replace (j0 + 1 + Z.of_nat k) with (j0 + Z.of_nat (S k)) by lia.
    apply Hkey. simpl. lia.
Qed.

Lemma setExcelRow_other (rowNo j0 : Z) (row : list string)
    (f : gmap string string) (key : string) :
  (forall k : nat, (k < length row)%nat ->
     key <> columnIndexToLetter (j0 + Z.of_nat k) +:+ pretty rowNo) ->
  setExcelRow rowNo j0 row f !! key = f !! key.
Proof.
  intros Hkey. apply setExcelRow_skip. intros k Hk Heq.
  by destruct (Hkey k Hk).
Qed.

Lemma setExcelRow_lookup (rowNo j0 : Z) (row : list string)
    (f : gmap string string) (k : nat) (v : string) :
  0 <= j0 -> 0 < rowNo -> row !! k = Some v ->
  cellAccepted (j0 + Z.of_nat k) rowNo = true ->
  setExcelRow rowNo j0 row f
    !! (columnIndexToLetter (j0 + Z.of_nat k) +:+ pretty rowNo) = Some v.
Proof.
  revert j0 f k. induction row as [|v0 rest IH]; intros j0 f k Hj Hr Hk Hacc;
    [done |].
  destruct k as [|k]; cbn [setExcelRow].
  - injection Hk as ->. rewrite setExcelRow_other.
    + rewrite Z.add_0_r in *. rewrite Hacc. apply lookup_insert_eq.
    + intros k' _ Heq. apply cell_name_inj in Heq as [? _]; lia.
  - rewrite Nat2Z.inj_succ in *.
    replace (j0 + Z.succ (Z.of_nat k)) with (j0 + 1 + Z.of_nat k) in * by lia.
    apply IH; [lia | done | done | done].
Qed.

Lemma setExcelRows_skip (i0 : Z) (table : list (list string))
    (f : gmap string string) (key : string) :
  (forall (i j : nat),
     key = columnIndexToLetter (Z.of_nat j) +:+ pretty (i0 + Z.of_nat i + 2) ->
     cellAccepted (Z.of_nat j) (i0 + Z.of_nat i + 2) = false) ->
  setExcelRows i0 table f !! key = f !! key.
Proof.
  revert i0 f. induction table as [|row rest IH]; intros i0 f Hkey; [done |].
  cbn [setExcelRows]. rewrite IH.
  - apply setExcelRow_skip. intros k _ Heq.
    specialize (Hkey 0%nat k). rewrite Z.add_0_r in Hkey.
    rewrite Z.add_0_l in *. by apply Hkey.
  - intros i j. replace (i0 + 1 + Z.of_nat i + 2) with (i0 + Z.of_nat (S i) + 2) by lia.
    apply Hkey.
Qed.

Lemma setExcelRows_other (i0 : Z) (table : list (list string))
    (f : gmap string string) (key : string) :
  (forall (i j : nat),
     key <> columnIndexToLetter (Z.of_nat j) +:+ pretty (i0 + Z.of_nat i + 2)) ->
  setExcelRows i0 table f !! key = f !! key.
Proof.
  intros Hkey. apply setExcelRows_skip. intros i j Heq.
  by destruct (Hkey i j).
Qed.

Lemma setExcelRows_lookup (i0 : Z) (table : list (list string))
    (f : gmap string string) (i j : nat) (row : list string) (v : string) :
  0 <= i0 -> table !! i = Some row -> row !! j = Some v ->
  cellAccepted (Z.of_nat j) (i0 + Z.of_nat i + 2) = true ->
  setExcelRows i0 table f
    !! (columnIndexToLetter (Z.of_nat j) +:+ pretty (i0 + Z.of_nat i + 2))
  = Some v.
Proof.
  revert i0 f i. induction table as [|row0 rest IH];
    intros i0 f i Hi0 Hi Hj Hacc; [done |].
  destruct i as [|i]; cbn [setExcelRows].
  - injection Hi as ->. rewrite setExcelRows_other.
    + rewrite Z.add_0_r in *. rewrite <- (Z.add_0_l (Z.of_nat j)).
      apply setExcelRow_lookup; [lia | lia | done |].
      by rewrite Z.add_0_l.
    + intros i' j' Heq. apply cell_name_inj in Heq as [_ ?]; lia.
  - rewrite Nat2Z.inj_succ in *.
    replace (i0 + Z.succ (Z.of_nat i) + 2) with (i0 + 1 + Z.of_nat i + 2) in *
      by lia.
    apply IH; [lia | done | done | done].
Qed.

(** The cells of the workbook that [saveExcel] builds: an accepted cell
    holds its value, a cell outside the sheet is not there. *)
Lemma workbook_header_cell (hdrs : list string) (table : list (list string))
    (j : nat) (h : string) :
  hdrs !! j = Some h ->
  setExcelRows 0 table (setExcelRow 1 0 hdrs ∅)
    !! (columnIndexToLetter (Z.of_nat j) +:+ "1")
  = if Z.of_nat j <? MaxColumns then Some h else None.
Proof.
  intros Hj. change "1"%string with (pretty 1).
  rewrite setExcelRows_other.
  2: { intros i' j' Heq. apply cell_name_inj in Heq as [_ ?]; lia. }
  destruct (Z.of_nat j <? MaxColumns) eqn:Hcol.
  - rewrite <- (Z.add_0_l (Z.of_nat j)).
    apply (setExcelRow_lookup 1 0); [lia | lia | done |].
    unfold cellAccepted. rewrite Z.add_0_l, Hcol. done.
  - rewrite setExcelRow_skip; [done |]. intros k _ Heq.
    apply cell_name_inj in Heq as [Hk _]; [| lia..].
    unfold cellAccepted. rewrite <- Hk, Hcol. done.
Qed.

Lemma workbook_data_cell (hdrs : list string) (table : list (list string))
    (i j : nat) (row : list string) (v : string) :
  table !! i = Some row -> row !! j = Some v ->
  setExcelRows 0 table (setExcelRow 1 0 hdrs ∅)
    !! (columnIndexToLetter (Z.of_nat j) +:+ pretty (Z.of_nat i + 2))
  = if cellAccepted (Z.of_nat j) (Z.of_nat i + 2) then Some v else None.
Proof.
  intros Hi Hj.
  destruct (cellAccepted (Z.of_nat j) (Z.of_nat i + 2)) eqn:Hacc.
  - rewrite <- (Z.add_0_l (Z.of_nat i + 2)), Z.add_assoc.
    apply (setExcelRows_lookup 0 table _ i j row v); [lia | done | done |].
    by rewrite Z.add_0_l.
  - rewrite setExcelRows_skip.
    + rewrite setExcelRow_other; [done |]. intros k _ Heq.
      apply cell_name_inj in Heq as [_ ?]; lia.
    + intros i' j' Heq. rewrite Z.add_0_l in *.
      apply cell_name_inj in Heq as [Hjj Hii]; [| lia..].
      by rewrite <- Hjj, <- Hii.
Qed.

(** [saveExcel] writes a workbook only under a name [SaveAs] accepts and
    returns an error otherwise, leaving no file. In the workbook every
    cell of the table that lies on the sheet is found under a name of its
    own: header [j] in row 1 of column [j], cell [j] of data row [i] in
    row [i + 2] of column [j], none overwritten by another. A cell right
    of column [XFD] or below row 1048576 is dropped without an error. *)
Theorem saveExcel_cell_names_distinct (filename : string) (hdrs : list string)
    (table : list (list string)) (fs : gmap string File) :
  (saveAsAccepts filename = false -> saveExcel filename hdrs table fs = None)
  /\ (saveAsAccepts filename = true ->
      exists cells,
        saveExcel filename hdrs table fs
        = Some (<[filename := ExcelFile cells]> fs)
        /\ (forall (j : nat) (h : string), hdrs !! j = Some h ->
              cells !! (columnIndexToLetter (Z.of_nat j) +:+ "1")
              = if Z.of_nat j <? MaxColumns then Some h else None)
        /\ (forall (i j : nat) (row : list string) (v : string),
              table !! i = Some row -> row !! j = Some v ->
              cells !! (columnIndexToLetter (Z.of_nat j)
                        +:+ pretty (Z.of_nat i + 2))
              = if cellAccepted (Z.of_nat j) (Z.of_nat i + 2)
                then Some v else None)).
Proof.
  unfold saveExcel. split; intros ->; [done |].
  eexists. split; [done |]. split.
  - apply workbook_header_cell.
  - apply workbook_data_cell.
Qed.
End ExcelWriter.

Lemma saveExcel_cell_names_distinct_witness :
  saveAsAccepts "out.xlsx" = true
  /\ exists cells,
       saveExcel "out.xlsx" ["city"; "country"] [["Oslo"; "NO"]] ∅
       = Some (<["out.xlsx" := ExcelFile cells]> ∅)
       /\ cells !! "B2" = Some "NO".
Proof.
  assert (saveAsAccepts "out.xlsx" = true) as Hacc by reflexivity.
  split; [exact Hacc |].
  destruct (saveExcel_cell_names_distinct "out.xlsx" ["city"; "country"]
              [["Oslo"; "NO"]] ∅) as [_ Hbook].
  destruct (Hbook Hacc) as (cells & Hsave & _ & Hdata).
  exists cells. split; [exact Hsave |].
  exact (Hdata 0%nat 1%nat ["Oslo"; "NO"] "NO" eq_refl eq_refl).
Defined.

(** ** Order and origin of tasks and results *)

Section MoreSteps.
Context (cfg : Config).

(** Induction over the states of a run, with the four invariants at hand. *)
Lemma run_invariant_ind (P : State -> Prop) :
  P (start_state cfg) ->
  (forall a s s',
      flow_invariant cfg s -> stats_invariant cfg s ->
      table_invariant cfg s -> control_invariant cfg s ->
      P s -> do_action cfg a s = Some s' -> P s') ->
  forall trace s, run cfg trace = Some s -> P s.
Proof.
  intros Hstart Hstep trace s. unfold run.
  destruct (start cfg) as [s0|] eqn:Hs0; [| done]. simpl.
  pose proof (start_invariants cfg s0 Hs0) as Hinv0.
  assert (P s0) as HP0.
  { unfold start in Hs0. case_decide; [done |]. by injection Hs0 as <-. }
  clear Hs0. revert s0 Hinv0 HP0.
  induction trace as [|a trace IH]; intros s0 Hinv0 HP0 Hrun; simpl in Hrun.
  - by injection Hrun as <-.
  - destruct (do_action cfg a s0) as [s1|] eqn:Hact; [| done]. simpl in Hrun.
    destruct Hinv0 as (Hf & Hs & Ht & Hc).
    apply (IH s1); [| by eapply Hstep | done].
    split; [by eapply flow_step |]. split; [by eapply stats_step |].
    split; [by eapply table_step | by eapply control_step].
Qed.

(** What a step does to the sink: nothing, a checkpoint, or one result
    applied, followed by a checkpoint when the count of processed
    results is a multiple of the batch size. *)
Lemma sink_step_cases (a : Action) (s s' : State) :
  do_action cfg a s = Some s' ->
  (sink s' = sink s /\ applied s' = applied s)
  \/ (sink s' = checkpoint cfg (sink s) /\ applied s' = applied s)
  \/ exists r table,
       a = ASinkRecv
       /\ resultChan s = r :: resultChan s'
       /\ applied s' = r :: applied s
       /\ panicked s' = false
       /\ batchSize cfg <> 0
       /\ applyResult (headers cfg) (columnSpecs cfg) r (enrichedRows (sink s))
          = Some table
       /\ sink s' =
          (if decide (Z.rem (add64 (processedCount (sink s)) 1) (batchSize cfg) = 0)
           then checkpoint cfg
           else fun k => k)
            {| enrichedRows := table;
               stats := updateStats r (stats (sink s));
               processedCount := add64 (processedCount (sink s)) 1;
               disk := disk (sink s); saves := saves (sink s) |}.
Proof.
  intros H.
  action_cases H;
    try match goal with
      | |- context [collector_takes ?c ?ev ?s] =>
          unfold collector_takes;
          destruct (collectResults_select c ev (sink s)) as [k|k|] eqn:Hsel
      end;
    try (by left);
    try (simpl in Hsel; injection Hsel as <-; by (left + (right; left)));
    try discriminate Hsel.
  - right. right.
    match goal with
    | Hr : resultChan s = ?r :: ?l |- _ => exists r; simpl; rewrite Hr
    end.
    simpl in Hsel.
    destruct (applyResult _ _ _ _) as [table|]; [| done].
    case_decide as Hb; [done |]. exists table.
    match goal with Hp : panicked s = false |- _ => rename Hp into Halive end.
    simpl. repeat (split; [done |]).
    case_decide; by injection Hsel as <-.
  - by apply collectResults_select_result_signal in Hsel.
Qed.

Lemma reverse_rowIndices_S (n : nat) :
  reverse (rowIndices (S n)) = Z.of_nat n :: reverse (rowIndices n).
Proof. by rewrite rowIndices_S, reverse_app. Qed.

Lemma order_step (a : Action) (s s' : State) :
  flow_invariant cfg s -> order_invariant cfg s ->
  do_action cfg a s = Some s' -> order_invariant cfg s'.
Proof.
  intros (Hle & _) [Hsub Heq] H. unfold order_invariant.
  destruct (flow_effect_step cfg a s s' H)
    as [_ Hs Hr Hc | i Hr Hlt Hr' _ Hs Hc | Hlt Hr _ Hs Hc
        | Hge Hr _ Hs Hc | x _ Hs Hr Hc].
  - rewrite Hs, Hr. split; [done |]. intros Hc'. by apply Heq, Hc.
  - rewrite Hs, Hr', Hc, reverse_rowIndices_S. subst i.
    split; [by apply sublist_skip |]. intros Hc'. by rewrite (Heq Hc').
  - rewrite Hs, Hr, Hc, reverse_rowIndices_S.
    split; [by apply sublist_cons | done].
  - assert (rowsOffered cfg s = length (rows cfg)) as Hall by lia.
    rewrite Hs, Hr, Hc. by rewrite Hall in *.
  - rewrite Hs, Hr, Hc. done.
Qed.

Lemma workerResult_resultOfRow (task : ProcessingTask) (o : Outcome) :
  taskOfRow cfg task -> resultOfRow cfg (workerResult (columnSpecs cfg) task o).
Proof. intros Ht. by exists task, o. Qed.

Lemma Forall_insert_worker (ws : list WorkerPc) (w : nat) (pc : WorkerPc) :
  Forall (workerHoldsRow cfg) ws -> workerHoldsRow cfg pc ->
  Forall (workerHoldsRow cfg) (<[w := pc]> ws).
Proof. intros. by apply Forall_insert. Qed.

Lemma origin_step (a : Action) (s s' : State) :
  origin_invariant cfg s -> do_action cfg a s = Some s' ->
  origin_invariant cfg s'.
Proof.
  intros (Htc & Hws & Hrc & Hap) H.
  action_cases H;
    try match goal with
      | |- context [collector_takes ?c ?ev ?s] =>
          unfold collector_takes;
          destruct (collectResults_select c ev (sink s)) as [k|k|] eqn:Hsel
      end;
    try match goal with
      | Hw : workers s !! _ = Some _ |- _ =>
          pose proof (Forall_lookup_1 _ _ _ _ Hws Hw) as Hmine; simpl in Hmine
      end;
    unfold origin_invariant; simpl;
    try match goal with
      | Hr : resultChan s = _ :: _ |- _ => rewrite ?Hr; simpl
      end;
    rewrite ?Forall_app, ?Forall_cons, ?Forall_singleton in *;
    try done;
    repeat split; try tauto;
    try (apply Forall_insert; [tauto |]; simpl; try tauto);
    try (by apply workerResult_resultOfRow);
    try (by constructor);
    try match goal with
      | Ht : taskChan s = [] |- Forall _ (taskChan s) => rewrite Ht; constructor
      | Hr : resultChan s = [] |- Forall _ (resultChan s) => rewrite Hr; constructor
      end.
  - match goal with
    | Hrow : rows cfg !! ?i = Some ?row |- _ => by exists i, row
    end.
Qed.

Lemma start_origin : origin_invariant cfg (start_state cfg).
Proof.
  unfold origin_invariant. simpl. repeat split; try done.
  apply Forall_replicate. done.
Qed.

Lemma run_origin (trace : list Action) (s : State) :
  run cfg trace = Some s -> origin_invariant cfg s.
Proof.
  apply run_invariant_ind; [apply start_origin |].
  intros a s0 s1 _ _ _ _ Hinv Hact. by eapply origin_step.
Qed.

Lemma run_order (trace : list Action) (s : State) :
  run cfg trace = Some s -> order_invariant cfg s.
Proof.
  apply run_invariant_ind; [done |].
  intros a s0 s1 Hflow _ _ _ Hinv Hact. by eapply order_step.
Qed.
End MoreSteps.

(** ** Content of the table and of the disk *)

Section Content.
Context (cfg : Config).

Lemma applied_indices (s : State) :
  flow_invariant cfg s ->
  NoDup (RowIndex <$> applied s)
  /\ forall r, r ∈ applied s -> 0 <= RowIndex r < Z.of_nat (length (rows cfg)).
Proof.
  intros Hflow. destruct (applied_sent_rows cfg s Hflow) as [Has Hsr].
  assert (RowIndex <$> applied s ⊆+ rowIndices (length (rows cfg))) as Hrows
    by (by etrans).
  split; [eapply submseteq_NoDup; [exact Hrows | apply rowIndices_NoDup] |].
  intros r Hr. apply rowIndices_elem.
  eapply elem_of_submseteq; [| exact Hrows].
  apply list_elem_of_fmap. by exists r.
Qed.

Lemma content_step (a : Action) (s s' : State) :
  flow_invariant cfg s -> content_invariant cfg s ->
  do_action cfg a s = Some s' -> content_invariant cfg s'.
Proof.
  intros Hflow [Hheld Hfresh] H. unfold content_invariant.
  pose proof (flow_step cfg a s s' Hflow H) as Hflow'.
  destruct (sink_effect_step cfg a s s' H)
    as [Htab _ Happ | r _ Happ Happly _ _]; [by rewrite Htab, Happ |].
  destruct (applied_indices s' Hflow') as [Hnd Hrange].
  rewrite Happ in Hnd, Hrange. rewrite Happ.
  apply applyResult_Some in Happly as (row & row' & Hge & Hrow & Hw & ->).
  apply writeTargets_Some in Hw as (Hlen & _ & Hcells).
  assert (Z.to_nat (RowIndex r) < length (enrichedRows (sink s)))%nat as Hlt
    by (by eapply lookup_lt_Some).
  rewrite fmap_cons in Hnd. apply NoDup_cons in Hnd as [Hnew _].
  split.
  - intros r0 Hr0 k spec Hk. unfold cell.
    apply elem_of_cons in Hr0 as [-> | Hr0].
    + rewrite list_lookup_insert_eq by done. simpl.
      specialize (Hcells k spec Hk). by rewrite Nat.add_0_r in Hcells.
    + assert (RowIndex r0 <> RowIndex r) as Hne.
      { intros Heq. apply Hnew. rewrite <- Heq.
        apply list_elem_of_fmap. by exists r0. }
      pose proof (Hrange r0 ltac:(by apply elem_of_cons; right)) as Hr0ge.
      rewrite list_lookup_insert_ne by lia. by apply (Hheld r0).
  - intros i Hi. apply not_elem_of_cons in Hi as [Hne Hi].
    rewrite list_lookup_insert_ne by lia. by apply Hfresh.
Qed.

Lemma run_content (trace : list Action) (s : State) :
  run cfg trace = Some s -> content_invariant cfg s.
Proof.
  apply run_invariant_ind.
  - split; [intros r Hr; by apply elem_of_nil in Hr | done].
  - intros a s0 s1 Hflow _ _ _ Hinv Hact. by eapply content_step.
Qed.

Lemma checkpoint_disk (k : Sink) :
  (forall name, name <> outputFile cfg +:+ ".tmp" -> disk k !! name = None) ->
  (if hasSuffix (outputFile cfg) ".csv"
   then saves k = 0%nat <-> disk k = ∅ else disk k = ∅) ->
  (forall name, name <> outputFile cfg +:+ ".tmp" ->
     disk (checkpoint cfg k) !! name = None)
  /\ (if hasSuffix (outputFile cfg) ".csv"
      then saves (checkpoint cfg k) = 0%nat <-> disk (checkpoint cfg k) = ∅
      else disk (checkpoint cfg k) = ∅).
Proof.
  intros Honly Hsaves. unfold checkpoint. simpl.
  destruct (hasSuffix (outputFile cfg) ".csv") eqn:Hcsv.
  - rewrite saveProgress_csv by done. split.
    + intros name Hname. rewrite lookup_insert_ne by done. by apply Honly.
    + split; [done |]. intros Hempty. by apply insert_non_empty in Hempty.
  - rewrite saveProgress_workbook by done. done.
Qed.

Lemma disk_step (a : Action) (s s' : State) :
  disk_invariant cfg s -> do_action cfg a s = Some s' -> disk_invariant cfg s'.
Proof.
  intros (Honly & Hsaves & Hcount) H. unfold disk_invariant.
  destruct (sink_step_cases cfg a s s' H)
    as [[-> ->] | [[-> ->] | (r & table & _ & _ & -> & _ & _ & _ & ->)]].
  - done.
  - destruct (checkpoint_disk (sink s) Honly Hsaves) as [H1 H2].
    split; [exact H1 |]. split; [exact H2 | done].
  - assert (add64 (processedCount (sink s)) 1
            = wrap 64 (Z.of_nat (length (r :: applied s)))) as Hcount'.
    { unfold add64. rewrite Hcount, wrap_add_wrap by lia. f_equal.
      simpl length. lia. }
    case_decide.
    + match goal with
      | |- context [checkpoint cfg ?k] =>
          destruct (checkpoint_disk k Honly Hsaves) as [H1 H2]
      end.
      split; [exact H1 |]. split; [exact H2 | done].
    + done.
Qed.

Lemma run_disk (trace : list Action) (s : State) :
  run cfg trace = Some s -> disk_invariant cfg s.
Proof.
  apply run_invariant_ind.
  - split; [done |]. split; [by destruct (hasSuffix (outputFile cfg) ".csv") |].
    done.
  - intros a s0 s1 _ _ _ _ Hinv Hact. by eapply disk_step.
Qed.
End Content.

(** ** Tasks, results and cells along a run *)

(** Tasks are sent in ascending row order, each row at most once: the row
    indices sent, latest first, are picked in order from
    [n-1, ..., 1, 0], where [n] rows have been gone past. While
    cancellation has not fired no row is skipped, so when the task channel
    is closed in such a run all rows have been sent, in order. *)
Theorem tasks_sent_in_row_order (cfg : Config) (trace : list Action) (s : State)
    (Hrun : run cfg trace = Some s) :
  sent s `sublist_of` reverse (rowIndices (rowsOffered cfg s))
  /\ (cancelled s = false ->
      sent s = reverse (rowIndices (rowsOffered cfg s))
      /\ (taskChanClosed s = true ->
          sent s = reverse (rowIndices (length (rows cfg))))).
Proof.
  destruct (run_order cfg trace s Hrun) as [Hsub Heq].
  destruct (run_invariants cfg trace s Hrun) as (_ & _ & _ & Hctl).
  split; [exact Hsub |]. intros Hlive. split; [by apply Heq |].
  intros Hclosed. destruct Hctl as (_ & _ & Hsrc & _).
  rewrite (Heq Hlive). unfold rowsOffered. by rewrite (Hsrc Hclosed).
Qed.

Lemma tasks_sent_in_row_order_witness :
  run sample_cfg sample_run = Some (state_after sample_cfg sample_run)
  /\ sent (state_after sample_cfg sample_run) = [1; 0].
Proof.
  assert (run sample_cfg sample_run = Some (state_after sample_cfg sample_run))
    as Hrun by (vm_compute; reflexivity).
  split; [exact Hrun |].
  destruct (tasks_sent_in_row_order sample_cfg sample_run _ Hrun) as [_ Hlive].
  destruct (Hlive eq_refl) as [_ Hclosed].
  rewrite (Hclosed eq_refl). reflexivity.
Defined.

Lemma resultOfRow_failed (cfg : Config) (r : ProcessingResult) (err : string) :
  resultOfRow cfg r -> Error r = Some err ->
  Tokens r = 0
  /\ forall spec, spec ∈ columnSpecs cfg ->
       Results r !! Name spec = Some ("ERROR: " +:+ err).
Proof.
  intros (task & o & _ & ->) Herr.
  destruct o as [results tokens | err0]; simpl in *; [done |].
  injection Herr as <-. split; [done |].
  intros spec Hspec. rewrite errorResults_lookup.
  case_decide as Hn; [done |]. exfalso. apply Hn.
  apply list_elem_of_fmap. by exists spec.
Qed.

(** Every result the sink has applied belongs to a row of the table: its
    row index is that row's position and its row data was built from that
    row's cells. If it carries a failure marker, it reports zero tokens and
    maps every declared target column to the error sentinel. *)
Theorem applied_results_come_from_rows (cfg : Config) (trace : list Action)
    (s : State) (r : ProcessingResult)
    (Hrun : run cfg trace = Some s) (Hr : r ∈ applied s) :
  exists (i : nat) (row : list string),
    rows cfg !! i = Some row
    /\ RowIndex r = Z.of_nat i
    /\ RowData r = buildRowData (headers cfg) 0 row ∅
    /\ forall err, Error r = Some err ->
         Tokens r = 0
         /\ forall spec, spec ∈ columnSpecs cfg ->
              Results r !! Name spec = Some ("ERROR: " +:+ err).
Proof.
  destruct (run_origin cfg trace s Hrun) as (_ & _ & _ & Hap).
  rewrite Forall_forall in Hap.
  pose proof (Hap r Hr) as Horigin.
  destruct Horigin as (task & o & (i & row & Hrow & Htask) & Hres).
  exists i, row. split; [done |].
  split; [subst; by destruct o |]. split; [subst; by destruct o |].
  intros err Herr. by apply (resultOfRow_failed cfg r err (Hap r Hr)).
Qed.

Lemma applied_results_come_from_rows_witness :
  run sample_cfg sample_run = Some (state_after sample_cfg sample_run)
  /\ exists r, r ∈ applied (state_after sample_cfg sample_run)
       /\ exists (i : nat) (row : list string),
            rows sample_cfg !! i = Some row /\ RowIndex r = Z.of_nat i.
Proof.
  assert (run sample_cfg sample_run = Some (state_after sample_cfg sample_run))
    as Hrun by (vm_compute; reflexivity).
  split; [exact Hrun |].
  destruct (applied (state_after sample_cfg sample_run)) as [|r rest] eqn:Happ;
    [vm_compute in Happ; discriminate |].
  exists r. split; [apply list_elem_of_here |].
  assert (r ∈ applied (state_after sample_cfg sample_run)) as Hr
    by (rewrite Happ; apply list_elem_of_here).
  destruct (applied_results_come_from_rows sample_cfg sample_run _ r Hrun Hr)
    as (i & row & Hrow & Hidx & _).
  by exists i, row.
Defined.

(** In every state of every run, the target cells of a row whose result has
    been applied hold that result's values, with the empty string for a
    target column the result has no value for; and a row with no result
    applied is exactly as it was allocated at the start. *)
Theorem table_holds_applied_results (cfg : Config) (trace : list Action)
    (s : State) (Hrun : run cfg trace = Some s) :
  (forall r, r ∈ applied s ->
   forall (k : nat) (spec : ColumnSpec), columnSpecs cfg !! k = Some spec ->
     cell (enrichedRows (sink s)) (Z.to_nat (RowIndex r))
       (length (headers cfg) + k)
     = Some (match Results r !! Name spec with
             | Some val => val
             | None => ""%string
             end))
  /\ (forall i : nat, Z.of_nat i ∉ RowIndex <$> applied s ->
      enrichedRows (sink s) !! i
      = (fun row => row ++ replicate (length (columnSpecs cfg)) ""%string)
          <$> rows cfg !! i).
Proof.
  destruct (run_content cfg trace s Hrun) as [Hheld Hfresh].
  split; [exact Hheld |].
  intros i Hi. rewrite (Hfresh i Hi). apply makeEnrichedRows_lookup.
Qed.

Lemma table_holds_applied_results_witness :
  run sample_cfg sample_cancelled_run
  = Some (state_after sample_cfg sample_cancelled_run)
  /\ enrichedRows (sink (state_after sample_cfg sample_cancelled_run)) !! 0%nat
     = Some ["Oslo"; ""].
Proof.
  assert (run sample_cfg sample_cancelled_run
          = Some (state_after sample_cfg sample_cancelled_run))
    as Hrun by (vm_compute; reflexivity).
  split; [exact Hrun |].
  destruct (table_holds_applied_results sample_cfg sample_cancelled_run _ Hrun)
    as [_ Hfresh].
  rewrite (Hfresh 0%nat); [reflexivity |].
  vm_compute. intros Hin. inversion Hin.
Defined.

(** A failed row is never half written: once its result is applied, every
    target cell of the row holds "ERROR: " followed by the error text. *)
Theorem failed_row_holds_sentinel (cfg : Config) (trace : list Action)
    (s : State) (r : ProcessingResult) (err : string)
    (Hrun : run cfg trace = Some s) (Hr : r ∈ applied s)
    (Herr : Error r = Some err) :
  forall (k : nat) (spec : ColumnSpec), columnSpecs cfg !! k = Some spec ->
    cell (enrichedRows (sink s)) (Z.to_nat (RowIndex r))
      (length (headers cfg) + k)
    = Some ("ERROR: " +:+ err).
Proof.
  intros k spec Hk.
  destruct (run_content cfg trace s Hrun) as [Hheld _].
  rewrite (Hheld r Hr k spec Hk). unfold targetValue.
  destruct (run_origin cfg trace s Hrun) as (_ & _ & _ & Hap).
  rewrite Forall_forall in Hap.
  destruct (resultOfRow_failed cfg r err (Hap r Hr) Herr) as [_ Hall].
  rewrite (Hall spec); [done |]. apply list_elem_of_lookup. by exists k.
Qed.

Lemma failed_row_holds_sentinel_witness :
  run sample_cfg sample_run = Some (state_after sample_cfg sample_run)
  /\ cell (enrichedRows (sink (state_after sample_cfg sample_run))) 0 1
     = Some "ERROR: timeout".
Proof.
  assert (run sample_cfg sample_run = Some (state_after sample_cfg sample_run))
    as Hrun by (vm_compute; reflexivity).
  split; [exact Hrun |].
  assert (workerResult (columnSpecs sample_cfg) sample_task (RowErr "timeout")
          ∈ applied (state_after sample_cfg sample_run)) as Hr.
  { vm_compute. apply list_elem_of_further, list_elem_of_here. }
  apply (failed_row_holds_sentinel sample_cfg sample_run _ _ "timeout" Hrun Hr
           eq_refl 0%nat (mkColumnSpec "country" "string") eq_refl).
Defined.

(** ** Return, checkpoints and the disk *)

Section Returning.
Context (cfg : Config).

(** With a worker around, a run that was never cancelled has offered every
    row by the time [processFullDataset] returns. *)
Lemma all_offered_at_return (s : State) :
  control_invariant cfg s ->
  mainPc s = MReturned -> cancelled s = false -> 0 < workerCount cfg ->
  rowsOffered cfg s = length (rows cfg).
Proof.
  intros (Hws & _ & Hclosed & Hexit & Hres & Hmain & _ & _) Hret Hlive Hw.
  assert (resultChanClosed s = true) as Hrc.
  { destruct (resultChanClosed s); [done |].
    destruct Hmain as [_ Hm]. rewrite (Hm eq_refl) in Hret. done. }
  specialize (Hres Hrc).
  destruct (workers s) as [|pc ws] eqn:Hworkers; [simpl in Hws; lia |].
  simpl in Hres. apply andb_true_iff in Hres as [Hpc _].
  destruct pc; try done.
  destruct (Hexit Hlive ltac:(apply list_elem_of_here)) as [_ Htc].
  unfold rowsOffered. by rewrite (Hclosed Htc).
Qed.

Lemma sink_recv_step (s s' : State) :
  do_action cfg ASinkRecv s = Some s' -> panicked s' = false ->
  exists r table,
    applied s' = r :: applied s
    /\ batchSize cfg <> 0
    /\ applyResult (headers cfg) (columnSpecs cfg) r (enrichedRows (sink s))
       = Some table
    /\ sink s' =
       (if decide (Z.rem (add64 (processedCount (sink s)) 1) (batchSize cfg) = 0)
        then checkpoint cfg
        else fun k => k)
         {| enrichedRows := table;
            stats := updateStats r (stats (sink s));
            processedCount := add64 (processedCount (sink s)) 1;
            disk := disk (sink s); saves := saves (sink s) |}.
Proof.
  intros H Halive.
  destruct (sink_step_cases cfg ASinkRecv s s' H)
    as [[Hsink Happ] | [[Hsink Happ] | (r & table & _ & _ & ? & _ & ? & ? & ?)]];
    [| | by exists r, table].
  - exfalso. unfold do_action in H.
    destruct (panicked s) eqn:Hp; [done |].
    destruct (collector s); try done.
    destruct (resultChan s) as [|r rest] eqn:Hrc; [done |].
    injection H as <-. unfold collector_takes in *.
    destruct (collectResults_select cfg (EvResult r) (sink s));
      simpl in *; try done;
      apply (f_equal length) in Happ; simpl in Happ; lia.
  - exfalso. unfold do_action in H.
    destruct (panicked s) eqn:Hp; [done |].
    destruct (collector s); try done.
    destruct (resultChan s) as [|r rest] eqn:Hrc; [done |].
    injection H as <-. unfold collector_takes in *.
    destruct (collectResults_select cfg (EvResult r) (sink s));
      simpl in *; try done;
      apply (f_equal length) in Happ; simpl in Happ; lia.
Qed.

Lemma send_needs_room (a : Action) (s s' : State) :
  do_action cfg a s = Some s' ->
  sent s' = sent s \/ (length (taskChan s) < chanCap cfg)%nat.
Proof.
  intros H.
  action_cases H;
    try match goal with
      | |- context [collector_takes ?c ?ev ?s] =>
          unfold collector_takes;
          destruct (collectResults_select c ev (sink s))
      end;
    try (by left); by right.
Qed.

Lemma stuck_worker_step (w : nat) (r : ProcessingResult) (a : Action)
    (s s' : State) :
  stuck_worker cfg w r s -> do_action cfg a s = Some s' ->
  stuck_worker cfg w r s'.
Proof.
  intros (Hw & Hcol & Hfull & Hopen & Hmain) H.
  action_cases H; unfold stuck_worker; simpl; try done;
    try (exfalso; congruence);
    try lia;
    try match goal with
      | Hall : forallb isExited (workers s) = true |- _ =>
          by pose proof (all_exited_lookup _ _ _ Hall Hw)
      end;
    try match goal with
      | Hw' : workers s !! ?w' = Some _ |- _ =>
          destruct (decide (w' = w)) as [-> | Hne]; [congruence |];
          rewrite list_lookup_insert_ne by done; done
      end.
Qed.
End Returning.

(** When [processFullDataset] returns from a run with at least one worker
    that was never cancelled, every row of the table has had its result
    applied, exactly once, and its target cells hold that result's values:
    no row is left as it was allocated. *)
Theorem every_row_written_at_return (cfg : Config) (trace : list Action)
    (s : State)
    (Hrun : run cfg trace = Some s)
    (Hret : mainPc s = MReturned)
    (Hlive : cancelled s = false)
    (Hworkers : 0 < workerCount cfg) :
  RowIndex <$> applied s ≡ₚ rowIndices (length (rows cfg))
  /\ length (applied s) = length (rows cfg)
  /\ forall (i : nat) (row : list string), rows cfg !! i = Some row ->
     exists r, r ∈ applied s /\ RowIndex r = Z.of_nat i
       /\ forall (k : nat) (spec : ColumnSpec), columnSpecs cfg !! k = Some spec ->
            cell (enrichedRows (sink s)) i (length (headers cfg) + k)
            = Some (match Results r !! Name spec with
                    | Some val => val
                    | None => ""%string
                    end).
Proof.
  destruct (run_invariants cfg trace s Hrun) as (Hflow & _ & _ & Hctl).
  destruct (run_content cfg trace s Hrun) as [Hheld _].
  assert (RowIndex <$> applied s ≡ₚ rowIndices (length (rows cfg))) as Hperm.
  { destruct Hflow as (_ & _ & _ & Hboth). destruct (Hboth Hlive) as [Hin Hsent].
    rewrite <- (drained_at_return cfg s Hctl Hret Hlive), Hin, Hsent.
    by rewrite (all_offered_at_return cfg s Hctl Hret Hlive Hworkers). }
  split; [exact Hperm |]. split.
  - apply Permutation_length in Hperm.
    by rewrite length_fmap, rowIndices_length in Hperm.
  - intros i row Hi.
    assert (Z.of_nat i ∈ RowIndex <$> applied s) as Hin.
    { rewrite Hperm. unfold rowIndices. apply list_elem_of_fmap.
      exists i. split; [done |]. apply elem_of_seq.
      apply lookup_lt_Some in Hi. lia. }
    apply list_elem_of_fmap in Hin as (r & Hidx & Hr).
    exists r. split; [done |]. split; [done |].
    intros k spec Hk. specialize (Hheld r Hr k spec Hk).
    by rewrite <- Hidx, Nat2Z.id in Hheld.
Qed.

Lemma every_row_written_at_return_witness :
  run sample_cfg sample_run = Some (state_after sample_cfg sample_run)
  /\ mainPc (state_after sample_cfg sample_run) = MReturned
  /\ cancelled (state_after sample_cfg sample_run) = false
  /\ 0 < workerCount sample_cfg
  /\ length (applied (state_after sample_cfg sample_run))
     = length (rows sample_cfg).
Proof.
  assert (run sample_cfg sample_run = Some (state_after sample_cfg sample_run))
    as Hrun by (vm_compute; reflexivity).
  assert (mainPc (state_after sample_cfg sample_run) = MReturned) as Hret
    by (vm_compute; reflexivity).
  assert (cancelled (state_after sample_cfg sample_run) = false) as Hlive
    by (vm_compute; reflexivity).
  assert (0 < workerCount sample_cfg) as Hw by (vm_compute; reflexivity).
  split; [exact Hrun |]. split; [exact Hret |]. split; [exact Hlive |].
  split; [exact Hw |].
  destruct (every_row_written_at_return sample_cfg sample_run _ Hrun Hret Hlive Hw)
    as (_ & Hlen & _).
  exact Hlen.
Defined.

(** [processFullDataset] returns only after every worker has returned, the
    result channel is closed and the collector has returned. If the run was
    never cancelled, both channels are empty by then: nothing that was sent
    is lost. *)
Theorem returns_after_workers_and_collector (cfg : Config)
    (trace : list Action) (s : State)
    (Hrun : run cfg trace = Some s) (Hret : mainPc s = MReturned) :
  Forall (fun pc => pc = WExited) (workers s)
  /\ resultChanClosed s = true
  /\ collector s = CReturned
  /\ (cancelled s = false -> taskChan s = [] /\ resultChan s = []).
Proof.
  destruct (run_invariants cfg trace s Hrun) as (_ & _ & _ & Hctl).
  pose proof Hctl as (_ & _ & _ & _ & Hres & Hmain & Hcoll & Hcol).
  assert (resultChanClosed s = true) as Hrc.
  { destruct (resultChanClosed s); [done |].
    destruct Hmain as [_ Hm]. rewrite (Hm eq_refl) in Hret. done. }
  split; [| split; [exact Hrc | split; [by apply Hcol |]]].
  - apply Forall_forall. intros pc Hpc.
    apply list_elem_of_lookup in Hpc as [w Hw].
    by eapply all_exited_lookup; [apply Hres |].
  - intros Hlive.
    pose proof (drained_at_return cfg s Hctl Hret Hlive) as Hdrained.
    unfold inflight in Hdrained.
    destruct (Hcoll Hlive) as [Hempty _]; [by rewrite (Hcol Hret) |].
    split; [| done].
    apply (f_equal length) in Hdrained.
    rewrite !length_app, !length_fmap in Hdrained.
    destruct (taskChan s); [done | simpl in Hdrained; lia].
Qed.

Lemma returns_after_workers_and_collector_witness :
  run sample_cfg sample_run = Some (state_after sample_cfg sample_run)
  /\ mainPc (state_after sample_cfg sample_run) = MReturned
  /\ collector (state_after sample_cfg sample_run) = CReturned.
Proof.
  assert (run sample_cfg sample_run = Some (state_after sample_cfg sample_run))
    as Hrun by (vm_compute; reflexivity).
  assert (mainPc (state_after sample_cfg sample_run) = MReturned) as Hret
    by (vm_compute; reflexivity).
  split; [exact Hrun |]. split; [exact Hret |].
  destruct (returns_after_workers_and_collector sample_cfg sample_run _ Hrun Hret)
    as (_ & _ & Hcol & _).
  exact Hcol.
Defined.

(** The only file the pipeline can write is the checkpoint file
    [outputFile + ".tmp"]: the final output file and every other file are
    left alone. Under an output name that ends in [.csv] the disk is empty
    exactly until the first checkpoint; under any other output name it
    stays empty however many checkpoints are attempted, since the workbook
    writer is refused the name of the temporary file. *)
Theorem only_checkpoint_file_written (cfg : Config) (trace : list Action)
    (s : State) (Hrun : run cfg trace = Some s) :
  disk (sink s) !! outputFile cfg = None
  /\ (forall name, name <> outputFile cfg +:+ ".tmp" ->
        disk (sink s) !! name = None)
  /\ (hasSuffix (outputFile cfg) ".csv" = true ->
      (saves (sink s) = 0%nat <-> disk (sink s) = ∅))
  /\ (hasSuffix (outputFile cfg) ".csv" = false -> disk (sink s) = ∅).
Proof.
  destruct (run_disk cfg trace s Hrun) as (Honly & Hsaves & _).
  split; [| split; [exact Honly |]].
  - apply Honly. intros Heq. apply (f_equal String.length) in Heq.
    rewrite string_length_app in Heq. simpl in Heq. lia.
  - split; intros Hcsv; by rewrite Hcsv in Hsaves.
Qed.

Lemma only_checkpoint_file_written_witness :
  run sample_xlsx (sample_first_result ++ [ASinkRecv])
  = Some (state_after sample_xlsx (sample_first_result ++ [ASinkRecv]))
  /\ hasSuffix (outputFile sample_xlsx) ".csv" = false
  /\ saves (sink (state_after sample_xlsx (sample_first_result ++ [ASinkRecv])))
     = 1%nat
  /\ disk (sink (state_after sample_xlsx (sample_first_result ++ [ASinkRecv])))
     = ∅.
Proof.
  assert (run sample_xlsx (sample_first_result ++ [ASinkRecv])
          = Some (state_after sample_xlsx (sample_first_result ++ [ASinkRecv])))
    as Hrun by (vm_compute; reflexivity).
  assert (hasSuffix (outputFile sample_xlsx) ".csv" = false) as Hbook
    by reflexivity.
  split; [exact Hrun |]. split; [exact Hbook |].
  split; [vm_compute; reflexivity |].
  destruct (only_checkpoint_file_written sample_xlsx _ _ Hrun)
    as (_ & _ & _ & Hempty).
  exact (Hempty Hbook).
Defined.

(** When the collector applies a result, its count of processed results is
    the number of results applied so far (for a table of fewer than 2^63
    rows), and it calls [saveProgress] exactly when that number is a
    multiple of the batch size, on the table with the new result in it.
    Under an output name ending in [.csv] the temporary file then holds the
    full header row and that table; under any other output name the call
    writes nothing. Without the call the disk is not touched. *)
Theorem batch_checkpoint_after_result (cfg : Config) (trace : list Action)
    (s s' : State)
    (Hrun : run cfg trace = Some s)
    (Hstep : do_action cfg ASinkRecv s = Some s')
    (Halive : panicked s' = false)
    (Hsmall : Z.of_nat (length (rows cfg)) < 2 ^ 63) :
  processedCount (sink s') = Z.of_nat (length (applied s'))
  /\ length (applied s') = S (length (applied s))
  /\ (Z.rem (Z.of_nat (length (applied s'))) (batchSize cfg) = 0 ->
      saves (sink s') = S (saves (sink s))
      /\ disk (sink s')
         = saveProgress (outputFile cfg) (headers cfg) (enrichedRows (sink s'))
             (columnSpecs cfg) (disk (sink s))
      /\ (hasSuffix (outputFile cfg) ".csv" = true ->
          disk (sink s') !! (outputFile cfg +:+ ".tmp")
          = Some (CSVFile ((headers cfg ++ getColumnNames (columnSpecs cfg))
                             :: enrichedRows (sink s'))))
      /\ (hasSuffix (outputFile cfg) ".csv" = false ->
          disk (sink s') = disk (sink s)))
  /\ (Z.rem (Z.of_nat (length (applied s'))) (batchSize cfg) <> 0 ->
      saves (sink s') = saves (sink s) /\ disk (sink s') = disk (sink s)).
Proof.
  destruct (run_invariants cfg trace s Hrun) as (Hflow & _ & _ & _).
  destruct (run_disk cfg trace s Hrun) as (_ & _ & Hcount).
  pose proof (flow_step cfg _ s s' Hflow Hstep) as Hflow'.
  destruct (sink_recv_step cfg s s' Hstep Halive)
    as (r & table & Happ & Hbatch & _ & Hsink).
  assert (add64 (processedCount (sink s)) 1 = Z.of_nat (length (applied s')))
    as Hpc.
  { unfold add64. rewrite Hcount, wrap_add_wrap by lia.
    destruct (applied_sent_rows cfg s' Hflow') as [H1 H2].
    apply submseteq_length in H1, H2.
    rewrite length_fmap in H1. rewrite rowIndices_length in H2.
    rewrite Happ in *. simpl length in *. rewrite Nat2Z.inj_succ.
    apply wrap_small; [lia |]. change (2 ^ (64 - 1)) with (2 ^ 63). lia. }
  rewrite Hpc in Hsink. rewrite Hsink.
  split; [by case_decide |]. split; [by rewrite Happ |].
  split; intros Hrem; (case_decide; [| done]) || (case_decide; [done |]); simpl.
  - split; [done |]. split; [done |]. split; intros Hcsv.
    + rewrite saveProgress_csv by done. apply lookup_insert_eq.
    + by rewrite saveProgress_workbook.
  - done.
Qed.

Lemma batch_checkpoint_after_result_witness :
  run sample_batch_one sample_first_result
  = Some (state_after sample_batch_one sample_first_result)
  /\ do_action sample_batch_one ASinkRecv
       (state_after sample_batch_one sample_first_result)
     = Some (state_after sample_batch_one (sample_first_result ++ [ASinkRecv]))
  /\ saves (sink (state_after sample_batch_one
                    (sample_first_result ++ [ASinkRecv]))) = 1%nat.
Proof.
  assert (run sample_batch_one sample_first_result
          = Some (state_after sample_batch_one sample_first_result)) as Hrun
    by (vm_compute; reflexivity).
  assert (do_action sample_batch_one ASinkRecv
            (state_after sample_batch_one sample_first_result)
          = Some (state_after sample_batch_one
                    (sample_first_result ++ [ASinkRecv]))) as Hstep
    by (vm_compute; reflexivity).
  split; [exact Hrun |]. split; [exact Hstep |].
  destruct (batch_checkpoint_after_result sample_batch_one _ _ _ Hrun Hstep
              eq_refl ltac:(vm_compute; reflexivity)) as (_ & _ & Hsave & _).
  destruct (Hsave eq_refl) as [-> _]. reflexivity.
Defined.

(** ** Blocked workers and degenerate flags *)

Section Degenerate.
Context (cfg : Config).

Lemma applied_step (a : Action) (s s' : State) :
  do_action cfg a s = Some s' ->
  applied s' = applied s \/ (a = ASinkRecv /\ panicked s' = false).
Proof.
  intros H.
  action_cases H;
    try match goal with
      | |- context [collector_takes ?c ?ev ?s] =>
          unfold collector_takes;
          destruct (collectResults_select c ev (sink s))
      end;
    try (by left); by right.
Qed.

Lemma run_from_stuck (w : nat) (r : ProcessingResult) (more : list Action)
    (s s' : State) :
  stuck_worker cfg w r s -> run_from cfg more s = Some s' ->
  stuck_worker cfg w r s'.
Proof.
  revert s. induction more as [|a more IH]; intros s Hstuck Hrun;
    simpl in Hrun.
  - by injection Hrun as <-.
  - destruct (do_action cfg a s) as [s1|] eqn:Hact; [| done].
    simpl in Hrun. apply (IH s1); [| done].
    by eapply stuck_worker_step.
Qed.

Lemma untouched_without_results (s : State) :
  content_invariant cfg s -> table_invariant cfg s -> applied s = [] ->
  enrichedRows (sink s) = makeEnrichedRows (rows cfg) (columnSpecs cfg).
Proof.
  intros [_ Hrest] _ Happ. apply list_eq. intros i. apply Hrest.
  rewrite Happ. simpl. apply not_elem_of_nil.
Qed.
End Degenerate.

(** A cancelled run can hang. A worker sends its result without watching
    the context, so once the collector has left its loop while the result
    channel is full, that worker stays blocked whatever the other
    goroutines do, and [processFullDataset] stays at [wg.Wait()]: it never
    closes the result channel and never returns. *)
Theorem blocked_worker_keeps_main_waiting (cfg : Config) (w : nat)
    (result : ProcessingResult) (more : list Action) (s s' : State)
    (Hstuck : stuck_worker cfg w result s)
    (Hmore : run_from cfg more s = Some s') :
  stuck_worker cfg w result s'
  /\ mainPc s' <> MReturned
  /\ do_action cfg (AWorkSend w) s' = None
  /\ do_action cfg AMainClose s' = None.
Proof.
  pose proof (run_from_stuck cfg w result more s s' Hstuck Hmore) as Hs'.
  split; [exact Hs' |].
  destruct Hs' as (Hw & Hcol & Hfull & Hopen & Hmain).
  split; [by rewrite Hmain |].
  unfold do_action. destruct (panicked s'); [done |].
  rewrite Hw, Hopen, Hmain. split.
  - case_decide; [lia | done].
  - destruct (forallb isExited (workers s')) eqn:Hall; [| done].
    by pose proof (all_exited_lookup _ _ _ Hall Hw).
Qed.

Lemma blocked_worker_keeps_main_waiting_witness :
  run sample_three_rows sample_hanging_run
  = Some (state_after sample_three_rows sample_hanging_run)
  /\ stuck_worker sample_three_rows 0
       (workerResult (columnSpecs sample_three_rows)
          (makeTask (headers sample_three_rows) 2 ["Rome"]) (RowErr "timeout"))
       (state_after sample_three_rows sample_hanging_run)
  /\ mainPc (state_after sample_three_rows (sample_hanging_run ++ [ACancel]))
     <> MReturned.
Proof.
  assert (stuck_worker sample_three_rows 0
            (workerResult (columnSpecs sample_three_rows)
               (makeTask (headers sample_three_rows) 2 ["Rome"])
               (RowErr "timeout"))
            (state_after sample_three_rows sample_hanging_run)) as Hstuck.
  { unfold stuck_worker.
    split; [vm_compute; reflexivity |]. split; [vm_compute; discriminate |].
    split; [vm_compute; lia |]. split; vm_compute; reflexivity. }
  assert (run_from sample_three_rows [ACancel]
            (state_after sample_three_rows sample_hanging_run)
          = Some (state_after sample_three_rows (sample_hanging_run ++ [ACancel])))
    as Hmore by (vm_compute; reflexivity).
  split; [vm_compute; reflexivity |]. split; [exact Hstuck |].
  destruct (blocked_worker_keeps_main_waiting sample_three_rows 0 _ [ACancel] _ _
              Hstuck Hmore) as (_ & Hmain & _).
  exact Hmain.
Defined.

(** With [-workers 0] no goroutine ever receives from the task channel,
    which is unbuffered: no task is sent, no result is applied, and the
    table stays as it was allocated, every target cell empty. The function
    still returns: there is nothing to wait for. *)
Theorem zero_workers_process_nothing (cfg : Config) (trace : list Action)
    (s : State)
    (Hzero : workerCount cfg = 0)
    (Hrun : run cfg trace = Some s) :
  sent s = [] /\ applied s = []
  /\ enrichedRows (sink s) = makeEnrichedRows (rows cfg) (columnSpecs cfg)
  /\ exists s1, run cfg [AMainClose; ASinkClosed; AHandshake] = Some s1
       /\ mainPc s1 = MReturned.
Proof.
  assert (sent s = []) as Hsent.
  { revert trace s Hrun. apply run_invariant_ind; [done |].
    intros a s s' _ _ _ Hctl IH Hact.
    destruct (send_needs_room cfg a s s' Hact) as [-> | Hroom]; [done |].
    unfold chanCap in Hroom. rewrite Hzero in Hroom. simpl in Hroom. lia. }
  destruct (run_invariants cfg trace s Hrun) as (Hflow & _ & Htable & _).
  assert (applied s = []) as Happ.
  { destruct (applied_sent_rows cfg s Hflow) as [Hsub _].
    rewrite Hsent in Hsub. apply submseteq_nil_r in Hsub.
    by apply fmap_nil_inv in Hsub. }
  split; [exact Hsent |]. split; [exact Happ |]. split.
  - apply (untouched_without_results cfg s); [| done | done].
    apply (run_content cfg trace s Hrun).
  - unfold run, start. rewrite Hzero. simpl.
    unfold do_action, start_state. simpl. rewrite Hzero. simpl.
    eexists. split; [reflexivity | reflexivity].
Qed.

Lemma zero_workers_process_nothing_witness :
  workerCount sample_no_workers = 0
  /\ run sample_no_workers [ACancel; ASrcDone; ASrcDone; ASrcClose]
     = Some (state_after sample_no_workers
               [ACancel; ASrcDone; ASrcDone; ASrcClose])
  /\ applied (state_after sample_no_workers
                [ACancel; ASrcDone; ASrcDone; ASrcClose]) = [].
Proof.
  assert (workerCount sample_no_workers = 0) as Hzero by reflexivity.
  assert (run sample_no_workers [ACancel; ASrcDone; ASrcDone; ASrcClose]
          = Some (state_after sample_no_workers
                    [ACancel; ASrcDone; ASrcDone; ASrcClose])) as Hrun
    by (vm_compute; reflexivity).
  split; [exact Hzero |]. split; [exact Hrun |].
  destruct (zero_workers_process_nothing sample_no_workers _ _ Hzero Hrun)
    as (_ & Happ & _).
  exact Happ.
Defined.

(** With [-batch-size 0] the collector cannot get past its first result:
    [processedCount % batchSize] divides by zero, so receiving a result
    always ends in a panic, and no run that is still alive has applied a
    result or left the table other than it was allocated. *)
Theorem zero_batch_size_panics_on_first_result (cfg : Config)
    (trace : list Action) (s : State)
    (Hzero : batchSize cfg = 0)
    (Hrun : run cfg trace = Some s) :
  (forall s', do_action cfg ASinkRecv s = Some s' -> panicked s' = true)
  /\ (panicked s = false ->
      applied s = []
      /\ enrichedRows (sink s) = makeEnrichedRows (rows cfg) (columnSpecs cfg)).
Proof.
  assert (forall s0 s', do_action cfg ASinkRecv s0 = Some s' -> panicked s' = true)
    as Hpanic.
  { intros s0 s' Hact. destruct (panicked s') eqn:Hp; [done |].
    by destruct (sink_recv_step cfg s0 s' Hact Hp) as (_ & _ & _ & Hb & _). }
  split; [apply Hpanic |]. intros Halive.
  assert (applied s = []) as Happ.
  { revert trace s Hrun Halive. apply (run_invariant_ind cfg
      (fun s => panicked s = false -> applied s = [])); [done |].
    intros a s s' _ _ _ _ IH Hact Halive.
    assert (panicked s = false) as Hs.
    { unfold do_action in Hact. by destruct (panicked s). }
    destruct (applied_step cfg a s s' Hact) as [-> | [-> _]]; [by apply IH |].
    by rewrite (Hpanic s s' Hact) in Halive. }
  split; [exact Happ |].
  destruct (run_invariants cfg trace s Hrun) as (_ & _ & Htable & _).
  apply (untouched_without_results cfg s); [| done | done].
  apply (run_content cfg trace s Hrun).
Qed.

Lemma zero_batch_size_panics_on_first_result_witness :
  batchSize sample_zero_batch = 0
  /\ run sample_zero_batch sample_first_result
     = Some (state_after sample_zero_batch sample_first_result)
  /\ panicked (state_after sample_zero_batch
                 (sample_first_result ++ [ASinkRecv])) = true.
Proof.
  assert (batchSize sample_zero_batch = 0) as Hzero by reflexivity.
  assert (run sample_zero_batch sample_first_result
          = Some (state_after sample_zero_batch sample_first_result)) as Hrun
    by (vm_compute; reflexivity).
  split; [exact Hzero |]. split; [exact Hrun |].
  destruct (zero_batch_size_panics_on_first_result sample_zero_batch _ _
              Hzero Hrun) as [Hpanic _].
  apply Hpanic. vm_compute. reflexivity.
Defined.
